(** * project-docs-server: request routing, path containment, ignore rules
      and language classification

    A shallow embedding of the request pipeline of the documentation server
    ([server.js], [lib/security.js], [lib/gitignoreParser.js],
    [lib/languageDetector.js], [lib/fileUtils.js]) together with the
    properties its specification states about it.

    JavaScript strings are modelled as [string], read as the UTF-8 bytes of
    the text.  The POSIX flavour of Node's [path] module is modelled on path
    segments; the host's facilities the server calls into (file system,
    MIME table, collation, glob compilation, HTML rendering) are explicit
    parameters of the model. *)

From Stdlib Require Import ZArith Ascii String List Lia Bool.
From stdpp Require Import base option list strings gmap sorting.

Local Open Scope Z_scope.

(** ** JavaScript string primitives *)

Module JS.

(** [s.startsWith(pre)] *)
Definition startsWith (pre s : string) : bool := String.prefix pre s.

(** [s.includes(sub)] *)
Fixpoint includes (sub s : string) : bool :=
  String.prefix sub s ||
  match s with
  | EmptyString => false
  | String _ s' => includes sub s'
  end.

(** [s.split(c)] for a one-character separator: never the empty array. *)
Fixpoint splitOn (c : ascii) (s : string) : list string :=
  match s with
  | EmptyString => [EmptyString]
  | String a s' =>
      if Ascii.eqb a c then EmptyString :: splitOn c s'
      else match splitOn c s' with
           | [] => [String a EmptyString]
           | w :: ws => String a w :: ws
           end
  end.

(** [s.split(c)[0]] *)
Definition firstPiece (c : ascii) (s : string) : string :=
  hd EmptyString (splitOn c s).

(** [parts.join(sep)] *)
Definition join (sep : string) (parts : list string) : string :=
  String.concat sep parts.

(** Lower-casing of the ASCII letters; bytes of multi-byte characters are
    left alone. *)
Definition lowerAscii (a : ascii) : ascii :=
  let n := N_of_ascii a in
  if ((65 <=? n) && (n <=? 90))%N then ascii_of_N (n + 32) else a.

Fixpoint toLowerCase (s : string) : string :=
  match s with
  | EmptyString => EmptyString
  | String a s' => String (lowerAscii a) (toLowerCase s')
  end.

(** [s.replace(/\\/g, '/')] *)
Fixpoint replaceAll (from to : ascii) (s : string) : string :=
  match s with
  | EmptyString => EmptyString
  | String a s' =>
      String (if Ascii.eqb a from then to else a) (replaceAll from to s')
  end.

(** A string is truthy when it is not empty. *)
Definition truthy (s : string) : bool :=
  match s with EmptyString => false | _ => true end.

Definition lastChar (s : string) : option ascii :=
  last (list_ascii_of_string s).

Definition endsWithChar (c : ascii) (s : string) : bool :=
  match lastChar s with
  | Some a => Ascii.eqb a c
  | None => false
  end.

(** The character [c] occurs in [s]. *)
Fixpoint hasChar (c : ascii) (s : string) : bool :=
  match s with
  | EmptyString => false
  | String a s' => Ascii.eqb a c || hasChar c s'
  end.

End JS.

(** ** Node's [path] module, POSIX flavour

    The module belongs to the platform, not to the repository; it is
    modelled here on its documented behaviour, path segment by path
    segment. *)

Module Path.

Definition sep : ascii := "/"%char.

(** [path.isAbsolute] *)
Definition isAbsolute (p : string) : bool :=
  match p with
  | String a _ => Ascii.eqb a sep
  | EmptyString => false
  end.

(** One segment of [normalizeString]; [res] is the stack of kept segments,
    most recent first.  Empty and [.] segments are dropped, [..] removes
    the last kept segment unless there is none or it is itself [..], in
    which case [..] is kept only when the path may climb above its start. *)
Definition normStep (allowAboveRoot : bool) (res : list string)
    (seg : string) : list string :=
  if decide (seg = "" ∨ seg = ".") then res
  else if decide (seg = "..") then
    match res with
    | top :: rest =>
        if decide (top = "..")
        then (if allowAboveRoot then ".." :: res else res)
        else rest
    | [] => if allowAboveRoot then [".."] else []
    end
  else seg :: res.

Definition normSegments (allowAboveRoot : bool) (p : string) : list string :=
  rev (fold_left (normStep allowAboveRoot) (JS.splitOn sep p) []).

Definition normalizeString (p : string) (allowAboveRoot : bool) : string :=
  JS.join "/" (normSegments allowAboveRoot p).

(** [path.normalize] *)
Definition normalize (p : string) : string :=
  if decide (p = "") then "."
  else
    let isAbs := isAbsolute p in
    let trailingSeparator := JS.endsWithChar sep p in
    let q := normalizeString p (negb isAbs) in
    if decide (q = "") then
      (if isAbs then "/" else if trailingSeparator then "./" else ".")
    else
      let q' := if trailingSeparator then q +:+ "/" else q in
      if isAbs then "/" +:+ q' else q'.

(** [path.join(a, b)] *)
Definition join (a b : string) : string :=
  match JS.truthy a, JS.truthy b with
  | false, false => "."
  | true, false => normalize a
  | false, true => normalize b
  | true, true => normalize (a +:+ "/" +:+ b)
  end.

(** [path.resolve(p)] in a process whose working directory is [cwd]. *)
Definition resolve (cwd p : string) : string :=
  let r1 := if JS.truthy p then p +:+ "/" else "" in
  let abs1 := isAbsolute p in
  let r2 :=
    if abs1 then r1
    else if JS.truthy cwd then cwd +:+ "/" +:+ r1 else r1 in
  let abs2 := abs1 || isAbsolute cwd in
  let q := normalizeString r2 (negb abs2) in
  if abs2 then "/" +:+ q
  else if JS.truthy q then q else ".".

(** The segments of a resolved path: [/a/b] has [a] and [b], [/] none. *)
Definition segments (p : string) : list string :=
  filter (λ s, s ≠ "") (JS.splitOn sep p).

(** What is left of two segment lists once their common prefix is gone. *)
Fixpoint stripCommon (f t : list string) : list string * list string :=
  match f, t with
  | a :: f', b :: t' =>
      if decide (a = b) then stripCommon f' t' else (f, t)
  | _, _ => (f, t)
  end.

(** [path.relative(from, to)]: one [..] for every segment of [from] below
    the common ancestor, then the segments of [to] below it. *)
Definition relative (cwd from to : string) : string :=
  if decide (from = to) then ""
  else
    let from' := resolve cwd from in
    let to' := resolve cwd to in
    if decide (from' = to') then ""
    else
      let '(up, down) := stripCommon (segments from') (segments to') in
      JS.join "/" (map (λ _, "..") up ++ down).

(** The last component of a path, trailing separators aside. *)
Definition lastSegment (p : string) : string :=
  match rev (segments p) with
  | s :: _ => s
  | [] => ""
  end.

(** [path.basename(p)] *)
Definition basename (p : string) : string := lastSegment p.

(** The part of [s] from its last occurrence of [c] on, if there is one. *)
Fixpoint fromLast (c : ascii) (s : string) : option string :=
  match s with
  | EmptyString => None
  | String a s' =>
      match fromLast c s' with
      | Some r => Some r
      | None => if Ascii.eqb a c then Some s else None
      end
  end.

(** [path.extname(p)]: from the last dot of the base name on; empty when
    there is no dot, when the only dot leads the name, or for [..]. *)
Definition extname (p : string) : string :=
  let b := lastSegment p in
  match fromLast "."%char b with
  | None => ""
  | Some e =>
      if decide (e = b) then ""
      else if decide (b = "..") then ""
      else e
  end.

(** Length of [s] up to the separator that ends its parent directory:
    scanning from the right, trailing separators are skipped, then the
    last component, and the position of the separator before it is
    returned; the first character is never inspected. *)
Fixpoint dirnameEnd (s : list ascii) (matchedSlash : bool) (i : nat)
    : option nat :=
  match s, i with
  | _, O => None
  | [], _ => None
  | a :: s', S i' =>
      if Ascii.eqb a sep then
        if matchedSlash then dirnameEnd s' true i' else Some i
      else dirnameEnd s' false i'
  end.

(** [path.dirname(p)] *)
Definition dirname (p : string) : string :=
  if decide (p = "") then "."
  else
    let hasRoot := isAbsolute p in
    let n := String.length p in
    match dirnameEnd (rev (list_ascii_of_string p)) true (n - 1) with
    | None => if hasRoot then "/" else "."
    | Some e =>
        if hasRoot && (e =? 1)%nat then "//"
        else String.substring 0 e p
    end.

End Path.

Example relative_doc :
  Path.relative "/" "/data/orandea/test/aaa" "/data/orandea/impl/bbb"
  = "../../impl/bbb".
Proof. reflexivity. Qed.

Example join_doc : Path.join "/foo" "bar/baz/asdf/quux/.." = "/foo/bar/baz/asdf".
Proof. reflexivity. Qed.

Example normalize_doc : Path.normalize "/foo/bar//baz/asdf/quux/.." = "/foo/bar/baz/asdf".
Proof. reflexivity. Qed.

Example extname_doc :
  map Path.extname ["index.html"; "index.coffee.md"; "index."; "index"; ".index"; ".index.md"; "/a/..notes.md"; "/a/.."; "/a/b.c/"]
  = [".html"; ".md"; "."; ""; ""; ".md"; ".md"; ""; ".c"].
Proof. reflexivity. Qed.

Example dirname_doc :
  map Path.dirname ["/foo/bar/baz/asdf/quux"; "/a"; "/"; "a"; "."; "//a"; "//"; "a/b/"; "/a/b//"; ""]
  = ["/foo/bar/baz/asdf"; "/"; "/"; "."; "."; "//"; "/"; "a"; "/a"; "."].
Proof. reflexivity. Qed.

(** ** [decodeURIComponent]

    The built-in of the language, after the Decode operation of ECMAScript:
    escapes are read first, then the escaped bytes are checked to be
    UTF-8. *)

Module URI.

Definition hexVal (a : ascii) : option N :=
  let n := N_of_ascii a in
  if ((48 <=? n) && (n <=? 57))%N then Some (n - 48)%N
  else if ((65 <=? n) && (n <=? 70))%N then Some (n - 55)%N
  else if ((97 <=? n) && (n <=? 102))%N then Some (n - 87)%N
  else None.

(** A character of the encoded text: itself, or the byte of an escape. *)
Inductive Token :=
| Raw (a : ascii)
| Esc (b : N).

(** Every [%] must be followed by two hexadecimal digits. *)
Fixpoint tokens (s : string) : option (list Token) :=
  match s with
  | EmptyString => Some []
  | String a s1 =>
      if Ascii.eqb a "%"%char then
        match s1 with
        | String h (String l rest) =>
            match hexVal h, hexVal l, tokens rest with
            | Some x, Some y, Some ts => Some (Esc (16 * x + y) :: ts)
            | _, _, _ => None
            end
        | _ => None
        end
      else match tokens s1 with
           | Some ts => Some (Raw a :: ts)
           | None => None
           end
  end.

Definition between (lo hi b : N) : bool := ((lo <=? b) && (b <=? hi))%N.
Definition cont (b : N) : bool := between 128 191 b.

(** The escaped bytes must spell well-formed UTF-8: no stray continuation
    byte, no overlong form, no surrogate, nothing above U+10FFFF. *)
Fixpoint utf8 (ts : list Token) : option (list ascii) :=
  match ts with
  | [] => Some []
  | Raw a :: rest => cons a <$> utf8 rest
  | Esc b :: rest =>
      if (b <? 128)%N then cons (ascii_of_N b) <$> utf8 rest
      else if between 194 223 b then
        match rest with
        | Esc c1 :: rest' =>
            if cont c1
            then app (map ascii_of_N [b; c1]) <$> utf8 rest'
            else None
        | _ => None
        end
      else if between 224 239 b then
        match rest with
        | Esc c1 :: Esc c2 :: rest' =>
            if (if (b =? 224)%N then between 160 191 c1
                else if (b =? 237)%N then between 128 159 c1
                else cont c1) && cont c2
            then app (map ascii_of_N [b; c1; c2]) <$> utf8 rest'
            else None
        | _ => None
        end
      else if between 240 244 b then
        match rest with
        | Esc c1 :: Esc c2 :: Esc c3 :: rest' =>
            if (if (b =? 240)%N then between 144 191 c1
                else if (b =? 244)%N then between 128 143 c1
                else cont c1) && cont c2 && cont c3
            then app (map ascii_of_N [b; c1; c2; c3]) <$> utf8 rest'
            else None
        | _ => None
        end
      else None
  end.

(** [decodeURIComponent(s)]; [None] stands for the thrown [URIError]. *)
Definition decodeURIComponent (s : string) : option string :=
  ts ← tokens s; string_of_list_ascii <$> utf8 ts.

End URI.

Example decode_plain : URI.decodeURIComponent "/a%20b/%E2%82%AC" =
  Some (String.append "/a b/" (string_of_list_ascii (map ascii_of_N [226; 130; 172]%N))).
Proof. reflexivity. Qed.

Example decode_malformed :
  map URI.decodeURIComponent ["/%"; "/%4"; "/%zz"; "/%80"; "/%C0%AF"; "/%E0%A4%A"; "/%ED%A0%80"]
  = [None; None; None; None; None; None; None].
Proof. reflexivity. Qed.

(** ** The [ignore] package: rule lists and their evaluation

    The package is a dependency of the repository; what [loadGitignoreRules]
    and [shouldIgnoreFile] use of it ([add] and [ignores]) is modelled on its
    behaviour, the compilation of a glob to a regular expression being left
    to the host. *)

Module Ignore.

Record Rule := {
  origin : string;
  pattern : string;
  negative : bool;
  regex : string → bool
}.

(** An [Ignore] instance is its list of rules, in the order they were
    added.  The instance's memo table only saves recomputation and is not
    part of the model. *)
Definition t := list Rule.

Definition backslash : ascii := "092"%char.

Definition isSpaceByte (a : ascii) : bool :=
  let n := N_of_ascii a in ((9 <=? n) && (n <=? 13))%N || (n =? 32)%N.

(** [/^\s*$/] on the UTF-8 bytes: ASCII white space, U+00A0, U+1680,
    U+2000..U+200A, U+2028, U+2029, U+202F, U+205F, U+3000, U+FEFF. *)
Fixpoint allSpace (s : string) : bool :=
  match s with
  | EmptyString => true
  | String a s1 =>
      if isSpaceByte a then allSpace s1
      else
        match s1 with
        | String b s2 =>
            let x := N_of_ascii a in
            let y := N_of_ascii b in
            if ((x =? 194) && (y =? 160))%N then allSpace s2
            else
              match s2 with
              | String c s3 =>
                  let z := N_of_ascii c in
                  if ((x =? 225) && (y =? 154) && (z =? 128)
                      || (x =? 226) && (y =? 128)
                         && ((128 <=? z) && (z <=? 138) || (z =? 168)
                             || (z =? 169) || (z =? 175))
                      || (x =? 226) && (y =? 129) && (z =? 159)
                      || (x =? 227) && (y =? 128) && (z =? 128)
                      || (x =? 239) && (y =? 187) && (z =? 191))%N
                  then allSpace s3
                  else false
              | EmptyString => false
              end
        | EmptyString => false
        end
  end.

(** [/^\s+$/] *)
Definition isBlankLine (s : string) : bool := JS.truthy s && allSpace s.

(** [/(?:[^\\]|^)\\$/]: the line ends in a lone backslash. *)
Definition invalidTrailingBackslash (s : string) : bool :=
  match rev (list_ascii_of_string s) with
  | a :: rest =>
      Ascii.eqb a backslash &&
      match rest with
      | b :: _ => negb (Ascii.eqb b backslash)
      | [] => true
      end
  | [] => false
  end.

Definition checkPattern (p : string) : bool :=
  JS.truthy p && negb (isBlankLine p) && negb (invalidTrailingBackslash p)
  && negb (JS.startsWith "#" p).

Definition stripCR (s : string) : string :=
  match rev (list_ascii_of_string s) with
  | a :: rest =>
      if Ascii.eqb a "013"%char then string_of_list_ascii (rev rest) else s
  | [] => s
  end.

Fixpoint stripCRs (pieces : list string) : list string :=
  match pieces with
  | [] => []
  | [p] => [p]
  | p :: rest => stripCR p :: stripCRs rest
  end.

(** [content.split(/\r?\n/g)] *)
Definition splitPattern (content : string) : list string :=
  stripCRs (JS.splitOn "010"%char content).

Definition dropFirst (s : string) : string :=
  match s with String _ s' => s' | EmptyString => EmptyString end.

Section Compiler.

(** The glob compiler of the package, [makeRegex(pattern, true)], taken
    as the predicate its regular expression decides. *)
Variable makeRegex : string → string → bool.

Definition createRule (p : string) : Rule :=
  let neg := JS.startsWith "!" p in
  let p1 := if neg then dropFirst p else p in
  let p2 := if JS.startsWith (String backslash "!") p1 then dropFirst p1 else p1 in
  let p3 := if JS.startsWith (String backslash "#") p2 then dropFirst p2 else p2 in
  {| origin := p; pattern := p3; negative := neg; regex := makeRegex p3 |}.

Definition addPattern (rules : t) (p : string) : t :=
  if checkPattern p then rules ++ [createRule p] else rules.

(** [ig.add(content)] *)
Definition add (rules : t) (content : string) : t :=
  fold_left addPattern (splitPattern content) rules.

End Compiler.

Record TestResult := { ignored : bool; unignored : bool }.

Definition testStep (path : string) (st : TestResult) (rule : Rule)
    : TestResult :=
  let neg := negative rule in
  if Bool.eqb (unignored st) neg && negb (Bool.eqb (ignored st) (unignored st))
     || neg && negb (ignored st) && negb (unignored st)
  then st
  else if regex rule path
       then {| ignored := negb neg; unignored := neg |}
       else st.

(** [_testOne(path, false)] *)
Definition testOne (rules : t) (path : string) : TestResult :=
  fold_left (testStep path) rules {| ignored := false; unignored := false |}.

(** [_t(path, cache, false, slices)]; [rslices] is [slices] last
    component first, so that [slices.pop()] is the tail.  A parent that is
    ignored decides for everything below it. *)
Fixpoint test (rules : t) (path : string) (rslices : list string)
    : TestResult :=
  match rslices with
  | [] => testOne rules path
  | _ :: parents =>
      match parents with
      | [] => testOne rules path
      | _ :: _ =>
          let parent :=
            test rules (JS.join "/" (rev parents) +:+ "/") parents in
          if ignored parent then parent else testOne rules path
      end
  end.

Fixpoint dropDots (s : string) : string :=
  match s with
  | String a s' => if Ascii.eqb a "."%char then dropDots s' else s
  | EmptyString => EmptyString
  end.

(** [/^\.*\/|^\.+$/]: not a path relative to the rule set's directory. *)
Definition invalidPath (p : string) : bool :=
  let q := dropDots p in
  JS.startsWith "/" q || (JS.truthy p && negb (JS.truthy q)).

(** [ig.ignores(path)]; [None] when the package throws on the path. *)
Definition ignores (rules : t) (path : string) : option bool :=
  if negb (JS.truthy path) || invalidPath path then None
  else Some (ignored (test rules path (rev (JS.splitOn "/"%char path)))).

End Ignore.

(** ** The host: file system, libraries and renderer *)

Record Stats := {
  st_isDirectory : bool;
  st_size : N;
  st_mtime : Z
}.

(** What the synchronous [fs] calls answer; [None] is a thrown error. *)
Record FileSystem := {
  fs_exists : string → bool;
  fs_stat : string → option Stats;
  fs_readdir : string → option (list string);
  fs_readFile : string → option string
}.

(** An entry of a directory listing, as [getFileInfo] builds it. *)
Record FileInfo := {
  name : string;
  isDirectory : bool;
  size : option N;
  modified : Z;
  extension : string;
  type : string
}.

Record Host := {
  (** [process.cwd()] *)
  cwd : string;
  (** the [ignore] package's glob compiler *)
  makeRegex : string → string → bool;
  (** [mime.getType] *)
  mimeType : string → option string;
  (** [a.localeCompare(b)] *)
  localeCompare : string → string → Z;
  (** the renderer of [lib/htmlGenerator.js] *)
  generateDirectoryHTML : string → list FileInfo → string → string → string;
  generateFileHTML :
    string → string → string → bool → option string → bool → string
}.

(** ** Effects: rule cache, operation trace, exceptions *)

Inductive Event :=
| ExistsSync (p : string)
| StatSync (p : string)
| ReaddirSync (p : string)
| ReadFileSync (p : string)
| Ignores (p : string).

Inductive Exn :=
| URIError
| FsError (p : string)
| IgnoreError (p : string).

Record State := {
  gitignoreCache : gmap string Ignore.t;
  trace : list Event
}.

Inductive Result (A : Type) :=
| Ok (a : A)
| Throw (e : Exn).
Arguments Ok {A} a.
Arguments Throw {A} e.

Definition M (A : Type) : Type := State → Result A * State.

Definition ret {A} (a : A) : M A := λ s, (Ok a, s).

Definition bind {A B} (m : M A) (k : A → M B) : M B :=
  λ s, match m s with
       | (Ok a, s') => k a s'
       | (Throw e, s') => (Throw e, s')
       end.

Definition throw {A} (e : Exn) : M A := λ s, (Throw e, s).

(** [try { m } catch (error) { h }] *)
Definition tryCatch {A} (m : M A) (h : Exn → M A) : M A :=
  λ s, match m s with
       | (Ok a, s') => (Ok a, s')
       | (Throw e, s') => h e s'
       end.

Definition emit (e : Event) : M unit :=
  λ s, (Ok tt, {| gitignoreCache := gitignoreCache s; trace := trace s ++ [e] |}).

Definition getCache : M (gmap string Ignore.t) := λ s, (Ok (gitignoreCache s), s).

Definition setCache (k : string) (ig : Ignore.t) : M unit :=
  λ s, (Ok tt, {| gitignoreCache := <[k := ig]> (gitignoreCache s);
                  trace := trace s |}).

Notation "'let*' x ':=' m 'in' k" := (bind m (λ x, k))
  (at level 10, x name, m at level 100, k at level 200).
Notation "'run' m 'in' k" := (bind m (λ _, k))
  (at level 10, m at level 100, k at level 200).

Fixpoint mapM {A B} (f : A → M B) (l : list A) : M (list B) :=
  match l with
  | [] => ret []
  | x :: l' => let* y := f x in let* ys := mapM f l' in ret (y :: ys)
  end.

Fixpoint filterM {A} (f : A → M bool) (l : list A) : M (list A) :=
  match l with
  | [] => ret []
  | x :: l' => let* b := f x in let* ys := filterM f l' in ret (if b then x :: ys else ys)
  end.

Section Server.

Context (host : Host) (fs : FileSystem).

Definition existsSync (p : string) : M bool :=
  run emit (ExistsSync p) in ret (fs_exists fs p).

Definition statSync (p : string) : M Stats :=
  run emit (StatSync p) in
  match fs_stat fs p with Some st => ret st | None => throw (FsError p) end.

Definition readdirSync (p : string) : M (list string) :=
  run emit (ReaddirSync p) in
  match fs_readdir fs p with Some l => ret l | None => throw (FsError p) end.

Definition readFileSync (p : string) : M string :=
  run emit (ReadFileSync p) in
  match fs_readFile fs p with Some c => ret c | None => throw (FsError p) end.

(** *** lib/security.js *)

Definition isSubPath (parent child : string) : bool :=
  let relative := Path.relative (cwd host) parent child in
  bool_decide (relative = "")
  || (JS.truthy relative && negb (JS.startsWith ".." relative)
      && negb (Path.isAbsolute relative)).

(** *** lib/gitignoreParser.js *)

(** The [while] loop of [loadGitignoreRules], one iteration per unit of
    [fuel]. *)
Fixpoint loadLoop (fuel : nat) (ig : Ignore.t) (currentDir : string)
    (checkedDirs : gset string) : M Ignore.t :=
  match fuel with
  | O => ret ig
  | S fuel' =>
      if JS.truthy currentDir && bool_decide (currentDir ∉ checkedDirs) then
        let checkedDirs' := {[currentDir]} ∪ checkedDirs in
        let gitignorePath := Path.join currentDir ".gitignore" in
        let* found := existsSync gitignorePath in
        let* ig' := (if found then
                 tryCatch
                   (let* gitignoreContent := readFileSync gitignorePath in
                    ret (Ignore.add (makeRegex host) ig gitignoreContent))
                   (λ _, ret ig)
               else ret ig) in
        let parentDir := Path.dirname currentDir in
        if decide (parentDir = currentDir) then ret ig'
        else loadLoop fuel' ig' parentDir checkedDirs'
      else ret ig
  end.

(** Every iteration but the last moves to a shorter directory name, or to
    one of the fixed points; this many iterations are never used up. *)
Definition loopBound (rootDir : string) : nat := String.length rootDir + 3.

Definition loadGitignoreRules (rootDir : string) : M Ignore.t :=
  let* cache := getCache in
  match cache !! rootDir with
  | Some ig => ret ig
  | None =>
      let ig := Ignore.add (makeRegex host) [] ".git" in
      let* ig' := loadLoop (loopBound rootDir) ig rootDir ∅ in
      run setCache rootDir ig' in
      ret ig'
  end.

Definition shouldIgnoreFile (filePath rootDir : string) : M bool :=
  let* ig := loadGitignoreRules rootDir in
  let relativePath := Path.relative (cwd host) rootDir filePath in
  if JS.startsWith ".." relativePath then ret false
  else
    let isRootDirectory :=
      negb (JS.truthy relativePath) || bool_decide (relativePath = ".") in
    if isRootDirectory then ret false
    else
      let normalizedPath :=
        JS.replaceAll Ignore.backslash "/"%char relativePath in
      run emit (Ignores normalizedPath) in
      match Ignore.ignores ig normalizedPath with
      | Some b => ret b
      | None => throw (IgnoreError normalizedPath)
      end.

  (** [filePaths.filter(filePath => !shouldIgnoreFile(filePath, rootDir))] *)
Definition filterIgnoredFiles (filePaths : list string) (rootDir : string)
    : M (list string) :=
  filterM (λ filePath,
             let* ign := shouldIgnoreFile filePath rootDir in
             ret (negb ign))
          filePaths.

(** [gitignoreCache.clear()] *)
Definition clearGitignoreCache : M unit :=
  λ s, (Ok tt, {| gitignoreCache := ∅; trace := trace s |}).

(** *** lib/fileUtils.js *)

Definition fileTypes : list (string * string) :=
  [(".md", "markdown"); (".html", "html"); (".htm", "html");
   (".js", "javascript"); (".ts", "typescript"); (".json", "json");
   (".css", "css"); (".py", "python"); (".txt", "text");
   (".yml", "yaml"); (".yaml", "yaml")].

Definition lookup_table (k : string) (tbl : list (string * string))
    : option string :=
  snd <$> List.find (λ kv, bool_decide (fst kv = k)) tbl.

Definition getFileType (ext : string) : string :=
  default "file" (lookup_table ext fileTypes).

Definition getFileInfo (filePath : string) : M FileInfo :=
  let* stats := statSync filePath in
  let ext := JS.toLowerCase (Path.extname filePath) in
  ret {| name := Path.basename filePath;
         isDirectory := st_isDirectory stats;
         size := if st_isDirectory stats then None else Some (st_size stats);
         modified := st_mtime stats;
         extension := ext;
         type := if st_isDirectory stats then "directory"
                 else getFileType ext |}.

(** *** lib/languageDetector.js *)

Definition languages : list (string * string) :=
  [(".js", "javascript"); (".ts", "typescript"); (".py", "python");
   (".java", "java"); (".cpp", "cpp"); (".c", "c"); (".css", "css");
   (".html", "html"); (".xml", "xml"); (".json", "json"); (".yml", "yaml");
   (".yaml", "yaml"); (".sh", "bash"); (".php", "php"); (".rb", "ruby");
   (".go", "go"); (".rs", "rust"); (".sql", "sql")].

Definition detectLanguage (filePath content : string) : option string :=
  let ext := JS.toLowerCase (Path.extname filePath) in
  match lookup_table ext languages with
  | Some lang => Some lang
  | None =>
      if negb (JS.truthy ext) then
        let firstLine := JS.firstPiece "010"%char content in
        if JS.includes "#!/usr/bin/env node" firstLine
           || JS.includes "#!/usr/bin/node" firstLine
        then Some "javascript"
        else if JS.includes "#!/usr/bin/env python" firstLine
                || JS.includes "#!/usr/bin/python" firstLine
        then Some "python"
        else if JS.includes "#!/bin/bash" firstLine
                || JS.includes "#!/bin/sh" firstLine
        then Some "bash"
        else if JS.includes "function " content
                || JS.includes "const " content
                || JS.includes "let " content
                || JS.includes "var " content
                || JS.includes "class " content
                || JS.includes "console.log" content
        then Some "javascript"
        else if JS.includes "def " content
                || JS.includes "import " content
                || JS.includes "from " content
                || JS.includes "print(" content
        then Some "python"
        else None
      else None
  end.

(** *** server.js *)

Inductive Response :=
| Send (status : Z) (body : string)
| SendFile (path : string).

(** The comparator handed to [Array.prototype.sort]. *)
Definition compareEntries (a b : FileInfo) : Z :=
  if isDirectory a && negb (isDirectory b) then -1
  else if negb (isDirectory a) && isDirectory b then 1
  else localeCompare host (name a) (name b).

Definition entryLe (a b : FileInfo) : Prop := compareEntries a b <= 0.

Global Instance entryLe_dec : RelDecision entryLe.
Proof. intros a b. unfold entryLe. apply _. Defined.

(** [entries.sort(compareEntries)]: the sort is stable, so for a
    comparator that orders the entries consistently any stable sort
    returns the same array. *)
Definition sortEntries (l : list FileInfo) : list FileInfo :=
  merge_sort entryLe l.

(** The MIME gate in front of the text renderer. *)
Definition textRenderable (mimeType : option string) : bool :=
  match mimeType with
  | Some m =>
      JS.truthy m
      && (JS.startsWith "text/" m
          || bool_decide (m = "application/javascript")
          || bool_decide (m = "application/json"))
  | None => false
  end.

Definition listDirectory (ROOT_DIR fullPath : string) : M (list FileInfo) :=
  let* children := readdirSync fullPath in
  let visible := List.filter (λ file, negb (JS.startsWith "." file)) children in
  let paths := map (λ file, Path.join fullPath file) visible in
  let* kept := filterM (λ filePath,
                    let* ign := shouldIgnoreFile filePath ROOT_DIR in ret (negb ign))
                 paths in
  let* infos := mapM getFileInfo kept in
  ret (sortEntries infos).

Definition serveFile (fullPath requestedPath : string) : M Response :=
  let ext := JS.toLowerCase (Path.extname fullPath) in
  let fileName := Path.basename fullPath in
  let mimeType := mimeType host fullPath in
  if textRenderable mimeType then
    let* content := readFileSync fullPath in
    let isMarkdown := bool_decide (ext = ".md") in
    let isHtml := bool_decide (ext = ".html") || bool_decide (ext = ".htm") in
    let language := detectLanguage fullPath content in
    ret (Send 200 (generateFileHTML host fileName content requestedPath
                     isMarkdown language isHtml))
  else ret (SendFile fullPath).

(** The handler of [app.get('*')], given [req.path]. *)
Definition handler (ROOT_DIR reqPath : string) : M Response :=
  match URI.decodeURIComponent reqPath with
  | None => throw URIError
  | Some requestedPath =>
      let fullPath := Path.join ROOT_DIR requestedPath in
      if negb (isSubPath ROOT_DIR fullPath)
         && negb (bool_decide (fullPath = ROOT_DIR))
      then ret (Send 403 "Access denied: Path outside of root directory")
      else
        let* ign := shouldIgnoreFile fullPath ROOT_DIR in
        if ign then ret (Send 404 "File not found")
        else
          tryCatch
            (let* found := existsSync fullPath in
             if negb found then ret (Send 404 "File not found")
             else
               let* stats := statSync fullPath in
               if st_isDirectory stats then
                 let* files := listDirectory ROOT_DIR fullPath in
                 ret (Send 200
                        (generateDirectoryHTML host fullPath files
                           (if bool_decide (requestedPath = "/") then ""
                            else requestedPath)
                           ROOT_DIR))
               else serveFile fullPath requestedPath)
            (λ _, ret (Send 500 "Internal server error"))
  end.

End Server.

(** ** lib/htmlGenerator.js: the link of a row of a listing

    [currentPath ? `${currentPath}/${file.name}` : file.name], the [href]
    [generateDirectoryHTML] gives the row of an entry. *)

Definition rowHref (currentPath fileName : string) : string :=
  if JS.truthy currentPath then currentPath +:+ "/" +:+ fileName
  else fileName.

(** The current path the handler hands to the renderer. *)
Definition currentPathOf (requestedPath : string) : string :=
  if bool_decide (requestedPath = "/") then "" else requestedPath.

(** ** [parseInt(s, 10)]

    The built-in of the language: leading white space is skipped, a sign is
    read, then the longest run of decimal digits; [None] stands for [NaN],
    the result when there is no digit. *)

Module JSNum.

Definition space3 (x y z : N) : bool :=
  ((x =? 225) && (y =? 154) && (z =? 128)
   || (x =? 226) && (y =? 128)
      && ((128 <=? z) && (z <=? 138) || (z =? 168) || (z =? 169) || (z =? 175))
   || (x =? 226) && (y =? 129) && (z =? 159)
   || (x =? 227) && (y =? 128) && (z =? 128)
   || (x =? 239) && (y =? 187) && (z =? 191))%N.

(** The string without its leading white space and line terminators. *)
Fixpoint trimStart (s : string) : string :=
  match s with
  | EmptyString => EmptyString
  | String a s1 =>
      if Ignore.isSpaceByte a then trimStart s1
      else
        match s1 with
        | String b s2 =>
            if ((N_of_ascii a =? 194) && (N_of_ascii b =? 160))%N
            then trimStart s2
            else
              match s2 with
              | String c s3 =>
                  if space3 (N_of_ascii a) (N_of_ascii b) (N_of_ascii c)
                  then trimStart s3
                  else s
              | EmptyString => s
              end
        | EmptyString => s
        end
  end.

Definition digit (a : ascii) : option Z :=
  let n := N_of_ascii a in
  if ((48 <=? n) && (n <=? 57))%N then Some (Z.of_N n - 48) else None.

(** The value of the longest prefix of digits, [acc] being the value of
    the digits read so far. *)
Fixpoint digits (acc : Z) (s : string) : Z :=
  match s with
  | EmptyString => acc
  | String a s' =>
      match digit a with
      | Some d => digits (10 * acc + d) s'
      | None => acc
      end
  end.

Definition startsWithDigit (s : string) : bool :=
  match s with
  | String a _ => bool_decide (is_Some (digit a))
  | EmptyString => false
  end.

(** [parseInt(s, 10)] *)
Definition parseInt (s : string) : option Z :=
  let t := trimStart s in
  let '(sign, body) :=
    match t with
    | String a t' =>
        if Ascii.eqb a "-"%char then (-1, t')
        else if Ascii.eqb a "+"%char then (1, t')
        else (1, t)
    | EmptyString => (1, t)
    end in
  if startsWithDigit body then Some (sign * digits 0 body) else None.

End JSNum.

(** ** server.js: what happens before the server listens *)

Record ServerConfig := {
  rootDirectory : string;
  port : Z
}.

(** The process either goes on to serve, or prints a message on the error
    stream and exits with a status. *)
Inductive Startup :=
| Serve (config : ServerConfig)
| Exit (status : Z) (message : string).

Definition portError : string :=
  "Error: Port must be a number between 1 and 65535".

Definition directoryError (dir : string) : string :=
  "Error: Directory " +:+ String "034"%char dir
  +:+ String "034"%char " does not exist.".

(** An argument of the command line that is present and not empty. *)
Definition argument (a : option string) : option string :=
  match a with
  | Some s => if JS.truthy s then Some s else None
  | None => None
  end.

(** The top of [server.js]; [dirArg] and [portArg] are [process.argv[2]]
    and [process.argv[3]]. *)
Definition startup (host : Host) (fs : FileSystem)
    (dirArg portArg : option string) : Startup :=
  let ROOT_DIR :=
    match argument dirArg with
    | Some d => Path.resolve (cwd host) d
    | None => cwd host
    end in
  let PORT :=
    match argument portArg with
    | Some p => JSNum.parseInt p
    | None => Some 4040
    end in
  let rejected :=
    match argument portArg, PORT with
    | Some _, None => true
    | Some _, Some n => (n <? 1) || (n >? 65535)
    | None, _ => false
    end in
  if rejected then Exit 1 portError
  else if negb (fs_exists fs ROOT_DIR) then Exit 1 (directoryError ROOT_DIR)
  else Serve {| rootDirectory := ROOT_DIR; port := default 4040 PORT |}.

(** ** A concrete host and file tree, for the examples *)

Module Demo.

(** The glob compiler on patterns that are a plain name: the name matches
    a path whose last component it is, letter case aside, whether or not
    the path ends in a separator. *)
Definition literalRegex (pat path : string) : bool :=
  bool_decide (JS.toLowerCase (Path.lastSegment path) = JS.toLowerCase pat).

Definition mimeOfExt : list (string * string) :=
  [(".md", "text/markdown"); (".txt", "text/plain"); (".html", "text/html");
   (".js", "application/javascript"); (".json", "application/json");
   (".png", "image/png"); (".pdf", "application/pdf")].

Definition mime (p : string) : option string :=
  lookup_table (JS.toLowerCase (Path.extname p)) mimeOfExt.

(** Names compare letter case aside, byte by byte. *)
Definition collate (a b : string) : Z :=
  match String.compare (JS.toLowerCase a) (JS.toLowerCase b) with
  | Lt => -1
  | Eq => 0
  | Gt => 1
  end.

Definition host : Host := {|
  cwd := "/home/dev";
  makeRegex := literalRegex;
  mimeType := mime;
  localeCompare := collate;
  generateDirectoryHTML := λ _ files _ _, JS.join "," (map name files);
  generateFileHTML := λ fileName content _ _ language _,
    fileName +:+ ":" +:+ default "plain" language +:+ ":" +:+ content
|}.

Inductive Node :=
| File (content : string)
| Dir (children : list string).

Definition tree : list (string * Node) :=
  [("/srv/docs", Dir ["b.txt"; "A"; "a.txt"; ".git"; ".gitignore"; "secret"; "run"; "logo.png"; "..notes.md"]);
   ("/srv/docs/b.txt", File "bee");
   ("/srv/docs/A", Dir []);
   ("/srv/docs/a.txt", File "ay");
   ("/srv/docs/.git", Dir ["config"]);
   ("/srv/docs/.git/config", File "[core]");
   ("/srv/docs/.gitignore", File "secret");
   ("/srv/docs/secret", File "hunter2");
   ("/srv/docs/run", File "const x = 1; import y");
   ("/srv/docs/logo.png", File "PNG");
   ("/srv/docs/..notes.md", File "# notes");
   ("/etc/passwd", File "root:x:0:0")].

(** Path lookup: redundant separators and dot segments are resolved, and
    a path that ends in a separator names a directory only. *)
Definition node (t : list (string * Node)) (p : string) : option Node :=
  match snd <$> List.find (λ kv, bool_decide (fst kv = Path.resolve "/" p)) t with
  | Some (File c) => if JS.endsWithChar "/"%char p then None else Some (File c)
  | r => r
  end.

Definition fsOf (t : list (string * Node)) : FileSystem := {|
  fs_exists := λ p, bool_decide (is_Some (node t p));
  fs_stat := λ p,
    match node t p with
    | Some (File c) =>
        Some {| st_isDirectory := false; st_size := N.of_nat (String.length c);
                st_mtime := 0 |}
    | Some (Dir _) =>
        Some {| st_isDirectory := true; st_size := 0%N; st_mtime := 0 |}
    | None => None
    end;
  fs_readdir := λ p,
    match node t p with Some (Dir l) => Some l | _ => None end;
  fs_readFile := λ p,
    match node t p with Some (File c) => Some c | _ => None end
|}.

Definition fs : FileSystem := fsOf tree.

(** A root that holds two files and a directory, and no ignore file. *)
Definition plainTree : list (string * Node) :=
  [("/srv/docs", Dir ["b.txt"; "A"; "a.txt"]);
   ("/srv/docs/b.txt", File "bee");
   ("/srv/docs/A", Dir []);
   ("/srv/docs/a.txt", File "ay")].

(** A root whose ignore file takes the implicit rule back. *)
Definition negatedTree : list (string * Node) :=
  [("/srv/docs", Dir [".git"; ".gitignore"]);
   ("/srv/docs/.git", Dir ["config"]);
   ("/srv/docs/.git/config", File "[core]");
   ("/srv/docs/.gitignore", File "!.git")].

Definition fresh : State := {| gitignoreCache := ∅; trace := [] |}.

(** The glob compiler on a plain name with a separator after it, the
    form that names directories only: the name matches a path in which it
    is a component followed by a separator, letter case aside.  A plain
    name alone is compiled as before. *)
Definition directoryRegex (pat path : string) : bool :=
  if JS.endsWithChar "/"%char pat then
    existsb
      (λ c, bool_decide
              (JS.toLowerCase c = JS.toLowerCase (Path.lastSegment pat)))
      (removelast (JS.splitOn "/"%char path))
  else literalRegex pat path.

(** The example host with that compiler. *)
Definition directoryHost : Host := {|
  cwd := cwd host;
  makeRegex := directoryRegex;
  mimeType := mimeType host;
  localeCompare := localeCompare host;
  generateDirectoryHTML := generateDirectoryHTML host;
  generateFileHTML := generateFileHTML host
|}.

(** A root whose ignore file hides the directory [build]. *)
Definition buildTree : list (string * Node) :=
  [("/srv/docs", Dir ["build"; "a.txt"; ".gitignore"]);
   ("/srv/docs/build", Dir ["out.js"]);
   ("/srv/docs/build/out.js", File "let x");
   ("/srv/docs/a.txt", File "ay");
   ("/srv/docs/.gitignore", File "build/")].

End Demo.

(** ** Vocabulary of the properties *)

Section Vocabulary.

Context (host : Host) (fs : FileSystem).

(** A segment that survives normalisation of an absolute path. *)
Definition plain (s : string) : Prop :=
s ≠ "" ∧ s ≠ "." ∧ s ≠ ".." ∧ JS.hasChar Path.sep s = false.

(** The segments a path resolves to in the server's process. *)
Definition resolvedSegments (p : string) : list string :=
Path.segments (Path.resolve (cwd host) p).

(** The specification's reading of containment: the candidate reduces,
  lexically, to the root or to something below it. *)
Definition contained (root p : string) : Prop :=
resolvedSegments root `prefix_of` resolvedSegments p.

(** The state reached from [s] by operations that only add to the trace. *)
Definition traced (s : State) (evs : list Event) : State :=
{| gitignoreCache := gitignoreCache s; trace := trace s ++ evs |}.

(** The rule the server always starts from. *)
Definition gitRule : Ignore.Rule := Ignore.createRule (makeRegex host) ".git".

(** Every cached rule set was built by [loadGitignoreRules]. *)
Definition cacheOk (s : State) : Prop :=
∀ root ig, gitignoreCache s !! root = Some ig → ∃ more, ig = gitRule :: more.

(** The decision [shouldIgnoreFile] takes once the rules are at hand. *)
Definition decideIgnore (ig : Ignore.t) (relativePath : string) : M bool :=
if JS.startsWith ".." relativePath then ret false
else if negb (JS.truthy relativePath) || bool_decide (relativePath = ".")
then ret false
else
  let normalizedPath := JS.replaceAll Ignore.backslash "/"%char relativePath in
  run emit (Ignores normalizedPath) in
  match Ignore.ignores ig normalizedPath with
  | Some b => ret b
  | None => throw (IgnoreError normalizedPath)
  end.

(** What is left to climb from a directory: nothing at the fixed points
  of [dirname]. *)
Definition dirMeasure (p : string) : nat :=
if decide (p = "" ∨ p = "." ∨ p = "/") then 0%nat else S (String.length p).



(** The two refusals of the handler. *)
Definition accessDenied : Response :=
Send 403 "Access denied: Path outside of root directory".

Definition notFound : Response := Send 404 "File not found".

(** Content sniffing, as the specification words it: interpreter lines
  and the language each announces. *)
Definition shebangs : list (list string * string) :=
[(["#!/usr/bin/env node"; "#!/usr/bin/node"], "javascript");
 (["#!/usr/bin/env python"; "#!/usr/bin/python"], "python");
 (["#!/bin/bash"; "#!/bin/sh"], "bash")].

(** The keyword sets of the heuristics. *)
Definition javascriptKeywords : list string :=
["function "; "const "; "let "; "var "; "class "; "console.log"].

Definition pythonKeywords : list string :=
["def "; "import "; "from "; "print("].

Definition keywords : list (list string * string) :=
[(javascriptKeywords, "javascript"); (pythonKeywords, "python")].

(** The language of the first row one of whose markers occurs in [text]. *)
Definition firstMatch (table : list (list string * string)) (text : string)
  : option string :=
snd <$> List.find (λ row, existsb (λ k, JS.includes k text) (fst row)) table.

(** Shebang on the first line first, then keywords anywhere, else none. *)
Definition sniff (content : string) : option string :=
match firstMatch shebangs (JS.firstPiece "010"%char content) with
| Some lang => Some lang
| None => firstMatch keywords content
end.

(** [s] between double quotes. *)
Definition quoted (s : string) : string :=
String "034"%char s +:+ String "034"%char "".

(** The guard lets the path through. *)
Definition admitted (ROOT_DIR fullPath : string) : Prop :=
isSubPath host ROOT_DIR fullPath = true ∨ fullPath = ROOT_DIR.

(** The MIME types the router renders as text. *)
Definition textual (mime : option string) : Prop :=
∃ m, mime = Some m
     ∧ (JS.startsWith "text/" m = true
        ∨ m = "application/javascript" ∨ m = "application/json").

(** What ECMAScript asks of a comparator for [sort] to be well defined:
  opposite signs on swapped arguments, and a transitive order. *)
Definition ConsistentComparator (cmp : string → string → Z) : Prop :=
(∀ a b, cmp a b < 0 ↔ 0 < cmp b a)
∧ (∀ a b c, cmp a b <= 0 → cmp b c <= 0 → cmp a c <= 0).

(** The order the specification asks of a listing: directories before
  files, names ascending within each group. *)
Definition listedBefore (a b : FileInfo) : Prop :=
(isDirectory a = true ∧ isDirectory b = false)
∨ (isDirectory a = isDirectory b
   ∧ localeCompare host (name a) (name b) <= 0).

(** The outcome of the ignore check, the rules being given. *)
Definition verdict (ig : Ignore.t) (rel : string) : Result bool :=
if JS.startsWith ".." rel then Ok false
else if negb (JS.truthy rel) || bool_decide (rel = ".") then Ok false
else
  let normalizedPath := JS.replaceAll Ignore.backslash "/"%char rel in
  match Ignore.ignores ig normalizedPath with
  | Some b => Ok b
  | None => Throw (IgnoreError normalizedPath)
  end.

(** The path is let into the listing. *)
Definition listed (ig : Ignore.t) (root p : string) : bool :=
match verdict ig (Path.relative (cwd host) root p) with
| Ok false => true
| _ => false
end.

(** The entry [getFileInfo] builds from the metadata of a path. *)
Definition fileInfoOf (stats : Stats) (filePath : string) : FileInfo :=
let ext := JS.toLowerCase (Path.extname filePath) in
{| name := Path.basename filePath;
   isDirectory := st_isDirectory stats;
   size := if st_isDirectory stats then None else Some (st_size stats);
   modified := st_mtime stats;
   extension := ext;
   type := if st_isDirectory stats then "directory" else getFileType ext |}.

(** [e] is the entry of the path [p] in the file system. *)
Definition describes (p : string) (e : FileInfo) : Prop :=
∃ stats, fs_stat fs p = Some stats ∧ e = fileInfoOf stats p.

(** A state in which the rules of the root have been loaded. *)
Definition loaded (fs : FileSystem) : State :=
(shouldIgnoreFile Demo.host fs "/srv/docs" "/srv/docs" Demo.fresh).2.

(** The cache keeps what it holds: entries are added, never changed. *)
Definition cacheKept (s s' : State) : Prop :=
∀ r, is_Some (gitignoreCache s !! r) →
     gitignoreCache s' !! r = gitignoreCache s !! r.

(** A step that keeps the entries of the cache and its well-formedness. *)
Definition steady (s s' : State) : Prop :=
cacheKept s s' ∧ (cacheOk s → cacheOk s').

(** An operation of the loader: a look at, or a read of, an ignore file. *)
Definition ignoreFileProbe (e : Event) : Prop :=
∃ dir, e = ExistsSync (Path.join dir ".gitignore")
       ∨ e = ReadFileSync (Path.join dir ".gitignore").

(** What a request can end in: one of the four statuses with its fixed
  text (any body for 200), a raw file, or an error of the decoder or of
  the ignore package; never an error of the file system. *)
Definition expectedOutcome (r : Result Response) : Prop :=
match r with
| Ok (Send status body) =>
    status = 200
    ∨ (status = 403 ∧ body = "Access denied: Path outside of root directory")
    ∨ (status = 404 ∧ body = "File not found")
    ∨ (status = 500 ∧ body = "Internal server error")
| Ok (SendFile _) => True
| Throw URIError => True
| Throw (IgnoreError _) => True
| Throw (FsError _) => False
end.

(** A string of decimal digits. *)
Definition allDigits (s : string) : Prop :=
Forall (λ a, is_Some (JSNum.digit a)) (list_ascii_of_string s).

(** A computation every run of which is a steady step. *)
Definition Steady {A} (m : M A) : Prop := ∀ s, steady s (m s).2.

(** The invariant of a listing entry: no size and the type [directory]
  for a directory, a size and the type of its extension for a file. *)
Definition wellFormedEntry (e : FileInfo) : Prop :=
(size e = None ↔ isDirectory e = true)
∧ (isDirectory e = true → type e = "directory")
∧ (isDirectory e = false → type e = getFileType (extension e)).

End Vocabulary.

(** * Properties *)

(** ** The path functions and the decoder on documented inputs *)

(** * Properties *)

(** ** Strings *)

Section StringFacts.

Lemma append_nil_r (s : string) : s +:+ "" = s.
Proof. induction s; simpl; unfold String.app in *; simpl; congruence. Qed.


Lemma append_cons (a : ascii) (s t : string) :
  String a s +:+ t = String a (s +:+ t).
Proof. reflexivity. Qed.

Lemma splitOn_nonempty c s : JS.splitOn c s ≠ [].
Proof.
  destruct s as [|a s]; simpl; [done|].
  destruct (Ascii.eqb a c); [done|]. by destruct (JS.splitOn c s).
Qed.

Lemma splitOn_app c a b :
  JS.splitOn c (a +:+ String c b) = JS.splitOn c a ++ JS.splitOn c b.
Proof.
  induction a as [|x a IH]; simpl.
  - rewrite Ascii.eqb_refl. reflexivity.
  - destruct (Ascii.eqb x c); [by rewrite IH|].
    rewrite IH. destruct (JS.splitOn c a) eqn:E; [|done].
    by apply splitOn_nonempty in E.
Qed.

Lemma splitOn_plain c s : JS.hasChar c s = false → JS.splitOn c s = [s].
Proof.
  induction s as [|x s IH]; simpl; [done|].
  intros [Hx Hs]%orb_false_iff. rewrite Hx, (IH Hs). done.
Qed.

Lemma splitOn_pieces c s : Forall (λ w, JS.hasChar c w = false) (JS.splitOn c s).
Proof.
  induction s as [|x s IH]; simpl; [by repeat constructor|].
  destruct (Ascii.eqb x c) eqn:E; [by constructor|].
  destruct (JS.splitOn c s); [by repeat constructor; simpl; rewrite E|].
  inversion_clear IH. constructor; [simpl; by rewrite E|done].
Qed.

Lemma join_cons sep w ws :
  JS.join sep (w :: ws) =
  match ws with [] => w | _ => w +:+ sep +:+ JS.join sep ws end.
Proof. reflexivity. Qed.

Lemma splitOn_join c ws :
  ws ≠ [] → Forall (λ w, JS.hasChar c w = false) ws →
  JS.splitOn c (JS.join (String c "") ws) = ws.
Proof.
  induction ws as [|w ws IH]; [done|]. intros _ Hall.
  inversion_clear Hall as [|? ? Hw Hws]. rewrite join_cons.
  destruct ws as [|w' ws]; [by apply splitOn_plain|].
  change (String c "" +:+ ?x) with (String c x).
  rewrite splitOn_app, splitOn_plain by done. simpl. f_equal. by apply IH.
Qed.

Lemma prefix_app p s t : String.prefix p s = true → String.prefix p (s +:+ t) = true.
Proof.
  revert s; induction p as [|a p IH]; intros s.
  - intros _. by destruct (s +:+ t).
  - destruct s as [|b s]; simpl; [done|].
    destruct (ascii_dec a b); [apply IH|done].
Qed.

Lemma startsWith_cons a b s t :
  JS.startsWith (String a s) (String b t) = Ascii.eqb a b && JS.startsWith s t.
Proof.
  unfold JS.startsWith. cbn [String.prefix].
  destruct (ascii_dec a b) as [->|Hne].
  - by rewrite Ascii.eqb_refl.
  - apply Ascii.eqb_neq in Hne. by rewrite Hne.
Qed.

Lemma startsWith_nil s : JS.startsWith "" s = true.
Proof. by destruct s. Qed.

Lemma prefix_nil_r p : String.prefix p "" = true → p = "".
Proof. by destruct p. Qed.

Lemma truthy_true s : JS.truthy s = true ↔ s ≠ "".
Proof. by destruct s. Qed.

Lemma truthy_false s : JS.truthy s = false ↔ s = "".
Proof. by destruct s. Qed.

Lemma hasChar_app c s t :
  JS.hasChar c (s +:+ t) = JS.hasChar c s || JS.hasChar c t.
Proof.
  induction s as [|a s IH]; simpl; [done|].
  rewrite IH. by rewrite orb_assoc.
Qed.

End StringFacts.

(** ** Paths *)

Section PathFacts.

Lemma normStep_plain acc seg :
  JS.hasChar Path.sep seg = false →
  Forall plain acc → Forall plain (Path.normStep false acc seg).
Proof.
  intros Hseg Hacc. unfold Path.normStep.
  destruct (decide (seg = "" ∨ seg = ".")) as [|Hne]; [done|].
  destruct (decide (seg = "..")) as [->|Hdd].
  - destruct acc as [|top rest]; [done|].
    destruct (decide (top = "..")); [done|]. by inversion Hacc.
  - constructor; [|done]. unfold plain. naive_solver.
Qed.

Lemma fold_normStep_plain l acc :
  Forall (λ w, JS.hasChar Path.sep w = false) l →
  Forall plain acc → Forall plain (fold_left (Path.normStep false) l acc).
Proof.
  revert acc; induction l as [|w l IH]; intros acc Hl Hacc; simpl; [done|].
  inversion_clear Hl. apply IH; [done|]. by apply normStep_plain.
Qed.

Lemma normSegments_plain p : Forall plain (Path.normSegments false p).
Proof.
  unfold Path.normSegments. apply List.Forall_rev.
  apply fold_normStep_plain; [apply splitOn_pieces|constructor].
Qed.

Lemma normStep_empty b acc : Path.normStep b acc "" = acc.
Proof. unfold Path.normStep. by rewrite decide_True by auto. Qed.

Lemma normStep_keep b acc seg : plain seg → Path.normStep b acc seg = seg :: acc.
Proof.
  intros (Hne & Hd & Hdd & _). unfold Path.normStep.
  rewrite decide_False by (intros [?|?]; congruence). by rewrite decide_False.
Qed.

(** Normalising segments that are already normal keeps them. *)
Lemma fold_normStep_id b l acc :
  Forall (λ w, w = "" ∨ plain w) l →
  fold_left (Path.normStep b) l acc = rev (filter (λ w, w ≠ "") l) ++ acc.
Proof.
  revert acc; induction l as [|w l IH]; intros acc Hl; simpl; [done|].
  inversion_clear Hl as [|? ? Hw Hl']. rewrite IH by done.
  destruct Hw as [->|Hw].
  - rewrite normStep_empty. by rewrite filter_cons_False by naive_solver.
  - rewrite normStep_keep by done.
    rewrite filter_cons_True by apply Hw. simpl. by rewrite <- app_assoc.
Qed.

Lemma plain_no_sep l :
  Forall plain l → Forall (λ w, JS.hasChar Path.sep w = false) l.
Proof. intros Hl. eapply Forall_impl; [exact Hl|]. by intros ? (?&?&?&?). Qed.

Lemma filter_plain l : Forall plain l → filter (λ w : string, w ≠ "") l = l.
Proof.
  induction 1 as [|w l Hw _ IH]; [done|].
  rewrite filter_cons_True by apply Hw. by rewrite IH.
Qed.

(** The pieces of [/a/b/c], with or without a separator at the end. *)
Lemma splitOn_abs l (tail : string) :
  Forall plain l → tail = "" ∨ tail = "/" →
  ∃ pieces, JS.splitOn Path.sep ("/" +:+ JS.join "/" l +:+ tail) = "" :: pieces
            ∧ Forall (λ w, w = "" ∨ plain w) pieces
            ∧ filter (λ w : string, w ≠ "") pieces = l.
Proof.
  intros Hl Htail.
  change ("/" +:+ ?x) with (String Path.sep x).
  assert (Hsplit : ∀ x, JS.splitOn Path.sep (String Path.sep x)
                        = "" :: JS.splitOn Path.sep x) by done.
  rewrite Hsplit.
  destruct l as [|w l'].
  - destruct Htail as [->| ->]; simpl.
    + exists [""]. split; [done|]. split; [repeat constructor; auto|done].
    + exists [""; ""]. split; [done|]. split; [repeat constructor; auto|done].
  - set (l := w :: l') in *.
    destruct Htail as [->| ->].
    + rewrite append_nil_r.
      change "/" with (String Path.sep "").
      rewrite splitOn_join by (done || by apply plain_no_sep).
      exists l. split; [done|]. split; [|by apply filter_plain].
      eapply Forall_impl; [exact Hl|]. auto.
    + change "/" with (String Path.sep "") at 2.
      rewrite splitOn_app. change "/" with (String Path.sep "").
      rewrite splitOn_join by (done || by apply plain_no_sep).
      exists (l ++ [""]). split; [done|]. split.
      * apply Forall_app. split; [|repeat constructor; auto].
        eapply Forall_impl; [exact Hl|]. auto.
      * rewrite filter_app, filter_plain by done. simpl.
        rewrite filter_cons_False by naive_solver. by rewrite app_nil_r.
Qed.

Lemma segments_abs l tail :
  Forall plain l → tail = "" ∨ tail = "/" →
  Path.segments ("/" +:+ JS.join "/" l +:+ tail) = l.
Proof.
  intros Hl Ht. destruct (splitOn_abs l tail Hl Ht) as (ps & E & _ & F).
  unfold Path.segments. rewrite E.
  by rewrite filter_cons_False by naive_solver.
Qed.

Lemma normSegments_abs b l tail :
  Forall plain l → tail = "" ∨ tail = "/" →
  Path.normSegments b ("/" +:+ JS.join "/" l +:+ tail) = l.
Proof.
  intros Hl Ht. destruct (splitOn_abs l tail Hl Ht) as (ps & E & P & F).
  unfold Path.normSegments. rewrite E. simpl. rewrite normStep_empty.
  rewrite fold_normStep_id by done. by rewrite app_nil_r, rev_involutive, F.
Qed.

(** A separator at the end does not change the normal segments. *)
Lemma normSegments_trailing b p :
  Path.normSegments b (p +:+ "/") = Path.normSegments b p.
Proof.
  unfold Path.normSegments. change "/" with (String Path.sep "").
  rewrite splitOn_app. simpl. rewrite fold_left_app. simpl.
  by rewrite normStep_empty.
Qed.

Lemma isAbsolute_truthy p : Path.isAbsolute p = true → JS.truthy p = true.
Proof. by destruct p. Qed.

Lemma resolve_abs cwd p :
  Path.isAbsolute p = true →
  Path.resolve cwd p = "/" +:+ JS.join "/" (Path.normSegments false p).
Proof.
  intros Habs. unfold Path.resolve.
  rewrite Habs, (isAbsolute_truthy _ Habs). simpl.
  unfold Path.normalizeString. by rewrite normSegments_trailing.
Qed.

Lemma segments_resolve_abs cwd p :
  Path.isAbsolute p = true →
  Path.segments (Path.resolve cwd p) = Path.normSegments false p.
Proof.
  intros Habs. rewrite resolve_abs by done.
  rewrite <- (append_nil_r (JS.join _ _)).
  apply segments_abs; [apply normSegments_plain|auto].
Qed.

Lemma join_nil_iff l : Forall plain l → JS.join "/" l = "" ↔ l = [].
Proof.
  intros Hl. split; [|by intros ->].
  destruct l as [|w l]; [done|]. rewrite join_cons.
  inversion_clear Hl as [|? ? (Hw&_) _]. destruct w; [done|].
  by destruct l.
Qed.

Lemma normalize_abs p :
  Path.isAbsolute p = true →
  ∃ tail, (tail = "" ∨ tail = "/") ∧
    Path.normalize p = "/" +:+ JS.join "/" (Path.normSegments false p) +:+ tail.
Proof.
  intros Habs. unfold Path.normalize.
  rewrite decide_False by (by destruct p). rewrite Habs. simpl.
  unfold Path.normalizeString.
  pose proof (normSegments_plain p) as Hpl.
  destruct (decide (JS.join "/" (Path.normSegments false p) = "")) as [E|E].
  - apply join_nil_iff in E; [|done]. rewrite E. by exists ""; auto.
  - destruct (JS.endsWithChar Path.sep p).
    + exists "/". auto.
    + exists "". by rewrite append_nil_r; auto.
Qed.

Lemma normalize_isAbsolute p :
  Path.isAbsolute p = true → Path.isAbsolute (Path.normalize p) = true.
Proof. intros Habs. by destruct (normalize_abs p Habs) as (t & _ & ->). Qed.

Lemma normSegments_normalize p :
  Path.isAbsolute p = true →
  Path.normSegments false (Path.normalize p) = Path.normSegments false p.
Proof.
  intros Habs. destruct (normalize_abs p Habs) as (t & Ht & ->).
  apply normSegments_abs; [apply normSegments_plain|done].
Qed.

Lemma join_isAbsolute root x :
  Path.isAbsolute root = true → Path.isAbsolute (Path.join root x) = true.
Proof.
  intros Habs. unfold Path.join. rewrite (isAbsolute_truthy _ Habs).
  destruct (JS.truthy x); apply normalize_isAbsolute; [|done].
  by destruct root.
Qed.

(** The segments of [path.join(root, x)]: those of [x] applied on top of
    those of [root]. *)
Lemma normSegments_join root x :
  Path.isAbsolute root = true →
  Path.normSegments false (Path.join root x) =
  rev (fold_left (Path.normStep false) (JS.splitOn Path.sep x)
         (rev (Path.normSegments false root))).
Proof.
  intros Habs. unfold Path.join. rewrite (isAbsolute_truthy _ Habs).
  destruct x as [|a x]; simpl JS.truthy; cbv iota.
  - rewrite normSegments_normalize by done. simpl.
    by rewrite normStep_empty, rev_involutive.
  - rewrite normSegments_normalize by (by destruct root).
    unfold Path.normSegments at 1. change "/" with (String Path.sep "").
    change (String Path.sep "" +:+ ?y) with (String Path.sep y).
    rewrite splitOn_app, fold_left_app.
    unfold Path.normSegments. by rewrite rev_involutive.
Qed.

End PathFacts.

(** ** Relative paths and containment *)

Section Containment.

Context (host : Host).

Lemma stripCommon_spec f t :
  ∃ c, f = c ++ (Path.stripCommon f t).1 ∧ t = c ++ (Path.stripCommon f t).2
       ∧ match (Path.stripCommon f t).1, (Path.stripCommon f t).2 with
         | u :: _, d :: _ => u ≠ d
         | _, _ => True
         end.
Proof.
  revert t; induction f as [|a f IH]; intros t.
  - exists []. by destruct t.
  - destruct t as [|b t]; [by exists []|]. simpl.
    destruct (decide (a = b)) as [->|Hne].
    + destruct (IH t) as (c & Hf & Ht & Hd). exists (b :: c). simpl.
      split; [by f_equal|]. split; [by f_equal|done].
    + by exists [].
Qed.

Lemma stripCommon_prefix f r : Path.stripCommon f (f ++ r) = ([], r).
Proof.
  induction f as [|a f IH]; simpl; [by destruct r|].
  by rewrite decide_True.
Qed.

Lemma stripCommon_up_nil f t :
  (Path.stripCommon f t).1 = [] ↔ f `prefix_of` t.
Proof.
  split.
  - intros E. destruct (stripCommon_spec f t) as (c & Hf & Ht & _).
    rewrite E, app_nil_r in Hf. subst c. by eexists.
  - intros [r ->]. by rewrite stripCommon_prefix.
Qed.

Lemma relative_eq from to :
  Path.relative (cwd host) from to =
  let '(up, down) := Path.stripCommon (resolvedSegments host from) (resolvedSegments host to) in
  JS.join "/" (map (λ _, "..") up ++ down).
Proof.
  unfold Path.relative, resolvedSegments.
  destruct (decide (from = to)) as [->|_].
  - by rewrite <- (app_nil_r (Path.segments _)) at 2; rewrite stripCommon_prefix.
  - destruct (decide (Path.resolve (cwd host) from = Path.resolve (cwd host) to)) as [->|_]; [|done].
    by rewrite <- (app_nil_r (Path.segments _)) at 2; rewrite stripCommon_prefix.
Qed.

Lemma segments_wf p :
  Forall (λ w, w ≠ "" ∧ JS.hasChar Path.sep w = false) (Path.segments p).
Proof.
  unfold Path.segments. apply Forall_forall. intros w Hw.
  apply list_elem_of_filter in Hw as [Hne Hin]. split; [done|].
  pose proof (splitOn_pieces Path.sep p) as Hall.
  rewrite Forall_forall in Hall. by apply Hall.
Qed.

Lemma prefix_empty s : String.prefix "" s = true.
Proof. by destruct s. Qed.

Lemma startsWith_join_head pre d ds :
  d ≠ "" → String.length pre = 2%nat → JS.hasChar Path.sep pre = false →
  JS.startsWith pre (JS.join "/" (d :: ds)) = JS.startsWith pre d.
Proof.
  intros Hd Hlen Hsep. rewrite join_cons. destruct ds as [|d' ds]; [done|].
  destruct pre as [|x [|y [|? ?]]]; try done.
  simpl in Hsep. apply orb_false_iff in Hsep as [Hx Hy].
  apply orb_false_iff in Hy as [Hy _].
  destruct d as [|a [|b d]]; [done| |].
  - unfold JS.startsWith. simpl.
    destruct (ascii_dec x a); [|done].
    destruct (ascii_dec y "/"); [|done]. subst.
    by rewrite Ascii.eqb_refl in Hy.
  - unfold JS.startsWith. simpl.
    destruct (ascii_dec x a); [|done]. destruct (ascii_dec y b); [|done].
    by rewrite !prefix_empty.
Qed.

Lemma join_truthy d ds : d ≠ "" → JS.truthy (JS.join "/" (d :: ds)) = true.
Proof. intros Hd. rewrite join_cons. destruct d; [done|]. by destruct ds. Qed.

Lemma join_not_absolute d ds :
  d ≠ "" → JS.hasChar Path.sep d = false →
  Path.isAbsolute (JS.join "/" (d :: ds)) = false.
Proof.
  intros Hd Hs. rewrite join_cons. destruct d as [|a d]; [done|].
  simpl in Hs. apply orb_false_iff in Hs as [Ha _]. by destruct ds.
Qed.

(** What the guard decides: the candidate resolves to the root or below
    it, and the first segment below the root does not begin with two
    dots. *)
Lemma isSubPath_true_iff parent child :
  isSubPath host parent child = true ↔
  ∃ rest, resolvedSegments host child = resolvedSegments host parent ++ rest
          ∧ match rest with
            | [] => True
            | d :: _ => JS.startsWith ".." d = false
            end.
Proof.
  unfold isSubPath. rewrite relative_eq.
  destruct (stripCommon_spec (resolvedSegments host parent) (resolvedSegments host child))
    as (c & Hf & Ht & Hd).
  pose proof (segments_wf (Path.resolve (cwd host) child)) as Hwf.
  fold (resolvedSegments host child) in Hwf.
  destruct (Path.stripCommon _ _) as [up down] eqn:E. simpl in *.
  destruct up as [|u up].
  - rewrite app_nil_r in Hf. subst c. simpl.
    destruct down as [|d ds].
    + simpl. split; [|done]. intros _. exists []. by rewrite Ht.
    + rewrite Ht in Hwf. apply Forall_app in Hwf as [_ Hwf].
      inversion_clear Hwf as [|? ? [Hne Hsep] _].
      rewrite join_truthy, join_not_absolute by done.
      rewrite startsWith_join_head by done.
      rewrite bool_decide_eq_false_2
        by (intros E'; pose proof (join_truthy d ds Hne) as T; by rewrite E' in T).
      simpl. rewrite andb_true_r, negb_true_iff. split.
      * intros Hs. exists (d :: ds). by rewrite Ht.
      * intros (rest & Hr & Hs). rewrite Ht in Hr.
        apply app_inv_head in Hr. by subst rest.
  - simpl map. simpl app. split.
    + rewrite bool_decide_eq_false_2; last first.
      { intros E'. pose proof (join_truthy ".." (map (λ _, "..") up ++ down)) as T.
        rewrite E' in T. by specialize (T ltac:(done)). }
      rewrite (startsWith_join_head ".." "..") by done. simpl.
      by rewrite andb_false_r.
    + intros (rest & Hr & _). exfalso.
      rewrite Hf, Ht, <- app_assoc in Hr. apply app_inv_head in Hr.
      subst down. simpl in Hd. done.
Qed.

Lemma isSubPath_contained parent child :
  isSubPath host parent child = true → contained host parent child.
Proof. rewrite isSubPath_true_iff. intros (rest & Hr & _). by exists rest. Qed.

Lemma relative_outside from to :
  ¬ resolvedSegments host from `prefix_of` resolvedSegments host to →
  JS.startsWith ".." (Path.relative (cwd host) from to) = true.
Proof.
  intros Hout. rewrite relative_eq.
  destruct (Path.stripCommon _ _) as [up down] eqn:E.
  destruct up as [|u up].
  - exfalso. apply Hout, stripCommon_up_nil. by rewrite E.
  - simpl map. simpl app. by rewrite (startsWith_join_head ".." "..").
Qed.

Lemma relative_below root p rest :
  resolvedSegments host p = resolvedSegments host root ++ rest →
  Path.relative (cwd host) root p = JS.join "/" rest.
Proof. intros E. by rewrite relative_eq, E, stripCommon_prefix. Qed.

End Containment.

(** ** Loading the ignore rules *)

Section Loading.

Context (host : Host) (fs : FileSystem).

Lemma traced_nil s : traced s [] = s.
Proof. destruct s. unfold traced. simpl. by rewrite app_nil_r. Qed.

Lemma traced_app s e1 e2 : traced (traced s e1) e2 = traced s (e1 ++ e2).
Proof. unfold traced. simpl. by rewrite app_assoc. Qed.

Lemma existsSync_run p s :
  existsSync fs p s = (Ok (fs_exists fs p), traced s [ExistsSync p]).
Proof. reflexivity. Qed.

Lemma readFileSync_run p s :
  readFileSync fs p s =
  (match fs_readFile fs p with Some c => Ok c | None => Throw (FsError p) end,
   traced s [ReadFileSync p]).
Proof. unfold readFileSync, bind, emit. simpl. by destruct (fs_readFile fs p). Qed.

Lemma statSync_run p s :
  statSync fs p s =
  (match fs_stat fs p with Some c => Ok c | None => Throw (FsError p) end,
   traced s [StatSync p]).
Proof. unfold statSync, bind, emit. simpl. by destruct (fs_stat fs p). Qed.

Lemma readdirSync_run p s :
  readdirSync fs p s =
  (match fs_readdir fs p with Some c => Ok c | None => Throw (FsError p) end,
   traced s [ReaddirSync p]).
Proof. unfold readdirSync, bind, emit. simpl. by destruct (fs_readdir fs p). Qed.

(** Rules are only ever appended. *)
Lemma add_extends mk rules content :
  ∃ more, Ignore.add mk rules content = rules ++ more.
Proof.
  unfold Ignore.add. generalize (Ignore.splitPattern content). intros ls.
  revert rules; induction ls as [|l ls IH]; intros rules; simpl.
  - exists []. by rewrite app_nil_r.
  - destruct (IH (Ignore.addPattern mk rules l)) as (more & ->).
    unfold Ignore.addPattern. destruct (Ignore.checkPattern l).
    + eexists. by rewrite <- app_assoc.
    + by eexists.
Qed.

Lemma add_git : Ignore.add (makeRegex host) [] ".git" = [gitRule host].
Proof. reflexivity. Qed.

(** The loop never throws, leaves the cache alone, and only appends
    rules. *)
Lemma loadLoop_run fuel ig dir checked s :
  ∃ more evs,
    loadLoop host fs fuel ig dir checked s = (Ok (ig ++ more), traced s evs).
Proof.
  revert ig dir checked s.
  induction fuel as [|fuel IH]; intros ig dir checked s; simpl.
  { exists [], []. by rewrite app_nil_r, traced_nil. }
  destruct (JS.truthy dir && bool_decide (dir ∉ checked)); last first.
  { exists [], []. by rewrite app_nil_r, traced_nil. }
  unfold bind at 1. rewrite existsSync_run.
  destruct (fs_exists fs (Path.join dir ".gitignore")).
  - unfold bind at 1. unfold tryCatch, bind at 1. rewrite readFileSync_run.
    destruct (fs_readFile fs (Path.join dir ".gitignore")) as [content|].
    + unfold ret at 1.
      destruct (add_extends (makeRegex host) ig content) as (m1 & ->).
      destruct (decide (Path.dirname dir = dir)).
      * eexists _, _. unfold ret. rewrite !traced_app. reflexivity.
      * edestruct IH as (m2 & evs & ->). eexists _, _.
        rewrite !traced_app, <- app_assoc. reflexivity.
    + unfold ret at 1.
      destruct (decide (Path.dirname dir = dir)).
      * exists []; eexists. unfold ret. rewrite !traced_app, app_nil_r. reflexivity.
      * edestruct IH as (m2 & evs & ->). eexists _, _.
        rewrite !traced_app. reflexivity.
  - unfold bind at 1, ret at 1.
    destruct (decide (Path.dirname dir = dir)).
    + exists []; eexists. unfold ret. rewrite app_nil_r. reflexivity.
    + edestruct IH as (m2 & evs & ->). eexists _, _.
      rewrite !traced_app. reflexivity.
Qed.

Lemma cacheOk_traced s evs : cacheOk host s → cacheOk host (traced s evs).
Proof. done. Qed.


(** [loadGitignoreRules] always returns a rule set, which it leaves in
    the cache. *)
Lemma loadGitignoreRules_run root s :
  ∃ ig s', loadGitignoreRules host fs root s = (Ok ig, s')
           ∧ gitignoreCache s' !! root = Some ig
           ∧ (∀ r, is_Some (gitignoreCache s !! r) →
                   gitignoreCache s' !! r = gitignoreCache s !! r)
           ∧ (gitignoreCache s !! root = None → ∃ more, ig = gitRule host :: more)
           ∧ (is_Some (gitignoreCache s !! root) → s' = s)
           ∧ (cacheOk host s → cacheOk host s').
Proof.
  unfold loadGitignoreRules, bind at 1, getCache.
  destruct (gitignoreCache s !! root) as [ig|] eqn:E.
  - exists ig, s. unfold ret. split_and!; done.
  - rewrite add_git. unfold bind at 1.
    destruct (loadLoop_run (loopBound root) [gitRule host] root ∅ s)
      as (more & evs & ->).
    unfold bind, setCache, ret. simpl.
    eexists _, _. split; [done|]. simpl. split_and!.
    + by rewrite lookup_insert_eq.
    + intros r [x Hr]. rewrite lookup_insert_ne; [done|]. congruence.
    + intros _. by eexists.
    + by intros [? ?].
    + intros Hok r ig'. simpl. destruct (decide (r = root)) as [->|Hne].
      * rewrite lookup_insert_eq. intros [= <-]. by eexists.
      * rewrite lookup_insert_ne by done. apply Hok.
Qed.

Lemma loadGitignoreRules_hit root ig s :
  gitignoreCache s !! root = Some ig →
  loadGitignoreRules host fs root s = (Ok ig, s).
Proof.
  intros E. unfold loadGitignoreRules, bind, getCache. by rewrite E.
Qed.

Lemma shouldIgnoreFile_eq filePath root s :
  shouldIgnoreFile host fs filePath root s =
  match loadGitignoreRules host fs root s with
  | (Ok ig, s') => decideIgnore ig (Path.relative (cwd host) root filePath) s'
  | (Throw e, s') => (Throw e, s')
  end.
Proof. reflexivity. Qed.

Lemma decideIgnore_cache ig rel s :
  gitignoreCache (decideIgnore ig rel s).2 = gitignoreCache s.
Proof.
  unfold decideIgnore. destruct (JS.startsWith ".." rel); [done|].
  destruct (negb (JS.truthy rel) || bool_decide (rel = ".")); [done|].
  unfold bind, emit. simpl. by destruct (Ignore.ignores _ _).
Qed.

(** After any call the rules of the root are cached, and so the outcome of
    a later call is decided by them alone. *)
Lemma shouldIgnoreFile_caches filePath root s :
  ∃ ig, gitignoreCache (shouldIgnoreFile host fs filePath root s).2 !! root = Some ig.
Proof.
  rewrite shouldIgnoreFile_eq.
  destruct (loadGitignoreRules_run root s) as (ig & s' & -> & Hc & _).
  exists ig. by rewrite decideIgnore_cache.
Qed.

Lemma shouldIgnoreFile_hit filePath root ig s :
  gitignoreCache s !! root = Some ig →
  shouldIgnoreFile host fs filePath root s =
  decideIgnore ig (Path.relative (cwd host) root filePath) s.
Proof.
  intros E. by rewrite shouldIgnoreFile_eq, (loadGitignoreRules_hit _ ig).
Qed.

End Loading.

(** ** The upward walk ends within its bound *)

Section Termination.

Context (host : Host) (fs : FileSystem).

Lemma dirnameEnd_bound s ms i e :
  Path.dirnameEnd s ms i = Some e →
  (1 ≤ e)%nat ∧ (if ms then e < i else e ≤ i)%nat.
Proof.
  revert ms i; induction s as [|a s IH]; intros ms i; destruct i as [|i];
    simpl; try done.
  destruct (Ascii.eqb a Path.sep).
  - destruct ms.
    + intros [? ?]%IH. lia.
    + intros [= <-]. lia.
  - intros [? ?]%IH. destruct ms; lia.
Qed.

Lemma length_substring_le n s :
  (String.length (String.substring 0 n s) ≤ n)%nat.
Proof.
  revert s; induction n as [|n IH]; intros [|a s]; simpl; try lia.
  specialize (IH s). lia.
Qed.

Lemma dirMeasure_le p : (dirMeasure p ≤ S (String.length p))%nat.
Proof. unfold dirMeasure. destruct (decide _); lia. Qed.

Lemma length_rev_chars p :
  length (rev (list_ascii_of_string p)) = String.length p.
Proof.
  rewrite length_rev. induction p; simpl; [done|]. by f_equal.
Qed.

Lemma dirname_measure p :
  p ≠ "" → Path.dirname p ≠ p →
  (dirMeasure (Path.dirname p) < dirMeasure p)%nat.
Proof.
  intros Hne. unfold Path.dirname. rewrite decide_False by done.
  destruct (Path.dirnameEnd _ _ _) as [e|] eqn:E.
  - apply dirnameEnd_bound in E as [He1 He2].
    assert (3 ≤ String.length p)%nat as Hlen by lia.
    assert (dirMeasure p = S (String.length p)) as ->.
    { unfold dirMeasure. rewrite decide_False; [done|].
      intros [->|[->| ->]]; simpl in Hlen; lia. }
    intros _. destruct (Path.isAbsolute p && (e =? 1)%nat).
    + unfold dirMeasure. simpl. lia.
    + pose proof (dirMeasure_le (String.substring 0 e p)).
      pose proof (length_substring_le e p). lia.
  - assert (dirMeasure "/" = 0%nat ∧ dirMeasure "." = 0%nat) as [M1 M2] by done.
    destruct (Path.isAbsolute p) eqn:Habs; intros Hup.
    + rewrite M1. unfold dirMeasure. rewrite decide_False; [lia|].
      intros [->|[->| ->]]; done.
    + rewrite M2. unfold dirMeasure. rewrite decide_False; [lia|].
      intros [->|[->| ->]]; done.
Qed.

Lemma bind_ext {A B} (m : M A) (k1 k2 : A → M B) s :
  (∀ a s', k1 a s' = k2 a s') → bind m k1 s = bind m k2 s.
Proof. intros E. unfold bind. destruct (m s) as [[a|e] s']; [apply E|done]. Qed.

(** Any fuel above the measure of the starting directory gives the same
    run: the bound of [loadGitignoreRules] is never what ends the loop. *)
Lemma loadLoop_fuel fuel1 fuel2 ig dir checked s :
  (dirMeasure dir < fuel1)%nat → (dirMeasure dir < fuel2)%nat →
  loadLoop host fs fuel1 ig dir checked s = loadLoop host fs fuel2 ig dir checked s.
Proof.
  revert fuel2 ig dir checked s.
  induction fuel1 as [|fuel1 IH]; intros [|fuel2] ig dir checked s; try lia.
  intros H1 H2. simpl.
  destruct (JS.truthy dir) eqn:Hdir; [|done]. simpl.
  destruct (bool_decide (dir ∉ checked)); [|done].
  apply bind_ext. intros found s1. apply bind_ext. intros ig' s2.
  destruct (decide (Path.dirname dir = dir)) as [|Hup]; [done|].
  apply truthy_true in Hdir.
  pose proof (dirname_measure dir Hdir Hup). apply IH; lia.
Qed.

Lemma loopBound_enough root : (dirMeasure root < loopBound root)%nat.
Proof. pose proof (dirMeasure_le root). unfold loopBound. lia. Qed.

Lemma loadLoop_bound_enough root k ig checked s :
  loadLoop host fs (loopBound root + k) ig root checked s =
  loadLoop host fs (loopBound root) ig root checked s.
Proof.
  pose proof (loopBound_enough root). apply loadLoop_fuel; lia.
Qed.

End Termination.

(** ** Evaluating the rules *)

Section IgnoreFacts.







Lemma replaceAll_id a b s : JS.hasChar a s = false → JS.replaceAll a b s = s.
Proof.
  induction s as [|x s IH]; simpl; [done|].
  intros [Hx Hs]%orb_false_iff. by rewrite Hx, IH.
Qed.

Lemma dropDots_nondot a s :
  Ascii.eqb a "."%char = false → Ignore.dropDots (String a s) = String a s.
Proof. intros E. simpl. by rewrite E. Qed.

Lemma dropDots_dot s : Ignore.dropDots (String "." s) = Ignore.dropDots s.
Proof. reflexivity. Qed.

(** The relative path of something below the root is one the package
    accepts, unless its first component begins with two dots. *)
Lemma invalidPath_plain d ds :
  plain d → JS.startsWith ".." d = false →
  Ignore.invalidPath (JS.join "/" (d :: ds)) = false.
Proof.
  intros (Hne & Hdot & Hdd & Hsep) Hst. rewrite join_cons.
  set (rest := match ds with [] => d | _ => _ end).
  assert (∃ a x y, d = String a x ∧ rest = String a y
                   ∧ (x = "" → ds = [] ∨ ∃ z, y = String "/" z)
                   ∧ (∀ b x', x = String b x' → ∃ y', y = String b y'))
    as (a & x & y & -> & Hrest & Hx0 & Hx1).
  { destruct d as [|a x]; [done|]. subst rest. destruct ds.
    - exists a, x, x. split_and!; auto. intros b x' ->. by eexists.
    - exists a, x, (x +:+ "/" +:+ JS.join "/" (s :: ds)). split_and!; auto.
      + intros ->. right. by eexists.
      + intros b x' ->. by eexists. }
  rewrite Hrest. unfold Ignore.invalidPath.
  simpl in Hsep. apply orb_false_iff in Hsep as [Ha Hxs].
  destruct (Ascii.eqb a "."%char) eqn:Ea.
  - apply Ascii.eqb_eq in Ea as ->.
    destruct x as [|b x']; [done|].
    destruct (Hx1 b x' eq_refl) as (y' & ->).
    simpl in Hxs. apply orb_false_iff in Hxs as [Hb _].
    assert (Ascii.eqb b "."%char = false) as Eb.
    { destruct (Ascii.eqb b ".") eqn:Eb; [|done].
      apply Ascii.eqb_eq in Eb as ->.
      unfold JS.startsWith in Hst. simpl in Hst.
      by rewrite prefix_empty in Hst. }
    rewrite dropDots_dot, dropDots_nondot by done.
    rewrite startsWith_cons, Ascii.eqb_sym. fold Path.sep. by rewrite Hb.
  - rewrite dropDots_nondot by done.
    rewrite startsWith_cons, Ascii.eqb_sym. fold Path.sep. by rewrite Ha.
Qed.

End IgnoreFacts.

(** ** The guard and the ignore engine *)

Section Guard.

Context (host : Host) (fs : FileSystem).

Lemma resolve_shape p :
  Path.isAbsolute p || Path.isAbsolute (cwd host) = true →
  ∃ l, Forall plain l ∧ Path.resolve (cwd host) p = "/" +:+ JS.join "/" l.
Proof.
  intros Habs. unfold Path.resolve. rewrite Habs. simpl.
  eexists. split; [|reflexivity]. apply normSegments_plain.
Qed.

Lemma resolvedSegments_plain p :
  Path.isAbsolute p || Path.isAbsolute (cwd host) = true →
  Forall plain (resolvedSegments host p).
Proof.
  intros Habs. destruct (resolve_shape p Habs) as (l & Hl & E).
  unfold resolvedSegments. rewrite E, <- (append_nil_r (JS.join _ _)).
  rewrite segments_abs; auto.
Qed.

Lemma resolvedSegments_abs p :
  Path.isAbsolute p = true →
  resolvedSegments host p = Path.normSegments false p.
Proof. apply segments_resolve_abs. Qed.

Lemma resolvedSegments_join root x :
  Path.isAbsolute root = true →
  resolvedSegments host (Path.join root x) =
  rev (fold_left (Path.normStep false) (JS.splitOn Path.sep x)
         (rev (resolvedSegments host root))).
Proof.
  intros Habs. rewrite !resolvedSegments_abs by auto using join_isAbsolute.
  by apply normSegments_join.
Qed.

(** A child of the root: one more segment. *)
Lemma resolvedSegments_child root child :
  Path.isAbsolute root = true → plain child →
  resolvedSegments host (Path.join root child) = resolvedSegments host root ++ [child]
  ∧ resolvedSegments host (Path.join root ("/" +:+ child))
    = resolvedSegments host root ++ [child].
Proof.
  intros Habs Hc. rewrite !resolvedSegments_join by done.
  assert (JS.splitOn Path.sep ("/" +:+ child) = ["" ; child]) as ->.
  { change ("/" +:+ child) with (String Path.sep child).
    cbn [JS.splitOn]. rewrite Ascii.eqb_refl. f_equal.
    apply splitOn_plain, Hc. }
  rewrite splitOn_plain by apply Hc. cbn [fold_left].
  rewrite normStep_empty, normStep_keep by done. cbn [rev].
  by rewrite rev_involutive.
Qed.

Lemma firstPiece_prefix c s : JS.startsWith (JS.firstPiece c s) s = true.
Proof.
  unfold JS.firstPiece. induction s as [|a s IH]; [done|].
  cbn [JS.splitOn]. destruct (Ascii.eqb a c); [done|].
  destruct (JS.splitOn c s) as [|w ws] eqn:E.
  - by apply splitOn_nonempty in E.
  - cbn [hd] in *. by rewrite startsWith_cons, Ascii.eqb_refl.
Qed.

Lemma decideIgnore_false ig rel s :
  JS.startsWith ".." rel = true ∨ rel = "" →
  decideIgnore ig rel s = (Ok false, s).
Proof.
  intros [Hs| ->]; unfold decideIgnore; [by rewrite Hs|done].
Qed.

End Guard.

(** ** The example host *)

Section DemoFacts.





End DemoFacts.

(** C1. The guard is meant to accept exactly the paths that reduce to the
    root or to a descendant of it.  It does not: [/srv/docs/..notes.md]
    resolves to a child of [/srv/docs], and [isSubPath] answers false,
    because the relative path [..notes.md] begins with two dots. *)
Theorem isSubPath_rejects_descendant (host : Host) :
  contained host "/srv/docs" "/srv/docs/..notes.md"
  ∧ resolvedSegments host "/srv/docs/..notes.md" = ["srv"; "docs"; "..notes.md"]
  ∧ Path.relative (cwd host) "/srv/docs" "/srv/docs/..notes.md" = "..notes.md"
  ∧ isSubPath host "/srv/docs" "/srv/docs/..notes.md" = false.
Proof.
  split_and!; [|reflexivity..]. by exists ["..notes.md"].
Qed.

(** Outside the root the handler stops at the guard. *)
Lemma handler_outside (host : Host) (fs : FileSystem)
    (ROOT_DIR reqPath requestedPath : string) (s : State) :
  URI.decodeURIComponent reqPath = Some requestedPath →
  ¬ contained host ROOT_DIR (Path.join ROOT_DIR requestedPath) →
  handler host fs ROOT_DIR reqPath s = (Ok accessDenied, s).
Proof.
  intros Hdec Hout. unfold handler. rewrite Hdec.
  destruct (isSubPath host ROOT_DIR (Path.join ROOT_DIR requestedPath)) eqn:Hsub.
  { by apply isSubPath_contained in Hsub. }
  rewrite bool_decide_eq_false_2.
  - reflexivity.
  - intros E. apply Hout. rewrite E. exists []. by rewrite app_nil_r.
Qed.

(** C2. A request whose decoded path, joined with the root, resolves outside
    the root is answered 403 at once: the rule cache and the trace of
    file-system and ignore operations are as they were. *)
Theorem guard_rejects_outside (host : Host) (fs : FileSystem)
    (ROOT_DIR reqPath requestedPath : string) (s : State) :
  URI.decodeURIComponent reqPath = Some requestedPath →
  ¬ contained host ROOT_DIR (Path.join ROOT_DIR requestedPath) →
  handler host fs ROOT_DIR reqPath s = (Ok accessDenied, s).
Proof. apply handler_outside. Qed.

Lemma guard_rejects_outside_witness :
  handler Demo.host Demo.fs "/srv/docs" "/../../etc/passwd" Demo.fresh
  = (Ok accessDenied, Demo.fresh).
Proof.
  apply (guard_rejects_outside Demo.host Demo.fs "/srv/docs"
           "/../../etc/passwd" "/../../etc/passwd" Demo.fresh).
  - reflexivity.
  - intros [rest Hrest]. vm_compute in Hrest. discriminate Hrest.
Defined.

(** The same request is refused whatever the host and the file system. *)
Lemma etc_passwd_denied (host : Host) (fs : FileSystem) (s : State) :
  handler host fs "/srv/docs" "/../../etc/passwd" s = (Ok accessDenied, s).
Proof.
  apply (handler_outside _ _ _ _ "/../../etc/passwd"); [reflexivity|].
  intros [rest Hrest]. discriminate Hrest.
Qed.

(** C5. The root is never ignored, and neither is a path whose relative
    path from the root begins with a parent segment, whatever the rules. *)
Theorem root_and_outside_not_ignored (host : Host) (fs : FileSystem)
    (R p : string) (s : State) :
  p = R ∨ JS.firstPiece "/"%char (Path.relative (cwd host) R p) = ".." →
  (shouldIgnoreFile host fs p R s).1 = Ok false.
Proof.
  intros Hp. rewrite shouldIgnoreFile_eq.
  destruct (loadGitignoreRules_run host fs R s) as (ig & s' & -> & _).
  rewrite decideIgnore_false; [done|].
  destruct Hp as [->|Hp].
  - right. unfold Path.relative. by rewrite decide_True.
  - left. rewrite <- Hp. apply firstPiece_prefix.
Qed.

Lemma root_and_outside_not_ignored_witness :
  (shouldIgnoreFile Demo.host Demo.fs "/srv/docs" "/srv/docs" Demo.fresh).1 = Ok false
  ∧ (shouldIgnoreFile Demo.host Demo.fs "/etc/passwd" "/srv/docs" Demo.fresh).1 = Ok false.
Proof.
  split.
  - apply (root_and_outside_not_ignored Demo.host Demo.fs "/srv/docs" "/srv/docs").
    left. reflexivity.
  - apply (root_and_outside_not_ignored Demo.host Demo.fs "/srv/docs" "/etc/passwd").
    right. reflexivity.
Defined.

(** C10. A child of the root whose name begins with two dots (and is not
    the parent segment itself) has that name as its relative path; the
    guard rejects it and the server answers 403, although the path resolves
    to a descendant of the root. *)
Theorem dotdot_name_forbidden (host : Host) (fs : FileSystem)
    (ROOT_DIR name reqPath : string) (s : State) :
  Path.isAbsolute ROOT_DIR = true →
  JS.startsWith ".." name = true → name ≠ ".." →
  JS.hasChar "/"%char name = false →
  URI.decodeURIComponent reqPath = Some ("/" +:+ name) →
  let child := Path.join ROOT_DIR name in
  resolvedSegments host child = resolvedSegments host ROOT_DIR ++ [name]
  ∧ Path.relative (cwd host) ROOT_DIR child = name
  ∧ isSubPath host ROOT_DIR child = false
  ∧ handler host fs ROOT_DIR reqPath s = (Ok accessDenied, s).
Proof.
  intros Habs Hdd Hne Hsep Hdec child.
  assert (plain name) as Hplain.
  { split_and!; try done; intros ->; done. }
  destruct (resolvedSegments_child host ROOT_DIR name Habs Hplain) as [Hc1 Hc2].
  assert (∀ q, resolvedSegments host q = resolvedSegments host ROOT_DIR ++ [name] →
               isSubPath host ROOT_DIR q = false) as Hrej.
  { intros q Hq. destruct (isSubPath host ROOT_DIR q) eqn:Hsub; [|done].
    apply isSubPath_true_iff in Hsub as (rest & Hrest & Hhd).
    rewrite Hq in Hrest. apply app_inv_head in Hrest as <-. congruence. }
  split_and!; [done| |by apply Hrej|].
  - rewrite (relative_below host _ _ [name]); done.
  - unfold handler. rewrite Hdec, (Hrej _ Hc2).
    rewrite bool_decide_eq_false_2; [reflexivity|].
    intros E. rewrite E in Hc2.
    apply (f_equal length) in Hc2. rewrite length_app in Hc2. simpl in Hc2. lia.
Qed.

Lemma dotdot_name_forbidden_witness :
  Path.relative (cwd Demo.host) "/srv/docs" (Path.join "/srv/docs" "..notes.md")
  = "..notes.md"
  ∧ Demo.node Demo.tree "/srv/docs/..notes.md" = Some (Demo.File "# notes")
  ∧ handler Demo.host Demo.fs "/srv/docs" "/..notes.md" Demo.fresh
    = (Ok accessDenied, Demo.fresh).
Proof.
  pose proof (dotdot_name_forbidden Demo.host Demo.fs "/srv/docs" "..notes.md"
                "/..notes.md" Demo.fresh) as T.
  destruct T as (_ & Hrel & _ & Hh); try reflexivity; [discriminate|].
  split_and!; [exact Hrel|reflexivity|exact Hh].
Defined.





(** ** Content sniffing, as the specification words it *)

Ltac split_includes :=
  repeat match goal with
         | |- context [JS.includes ?k ?x] =>
             destruct (JS.includes k x); cbn; try reflexivity
         end.

Lemma detectLanguage_sniff (filePath content : string) :
  Path.extname filePath = "" → detectLanguage filePath content = sniff content.
Proof.
  intros Hext. unfold detectLanguage, sniff, firstMatch. rewrite Hext. cbn.
  split_includes.
Qed.

Lemma existsb_includes ks k text :
  k ∈ ks → JS.includes k text = true →
  existsb (λ k, JS.includes k text) ks = true.
Proof.
  intros Hin Hk. apply existsb_exists. exists k. split; [|done].
  by apply list_elem_of_In.
Qed.

(** C7. Without an extension the language is sniffed from the content in
    the stated order: a shebang marker on the first line, then a JavaScript
    keyword, then a Python keyword, else none.  When no shebang marker
    matches, a JavaScript keyword decides for javascript even if Python
    keywords are present too. *)
Theorem sniffing_precedence (filePath content : string) :
  Path.extname filePath = "" →
  detectLanguage filePath content = sniff content
  ∧ (firstMatch shebangs (JS.firstPiece "010"%char content) = None →
     ∀ jk pk, jk ∈ javascriptKeywords → pk ∈ pythonKeywords →
              JS.includes jk content = true → JS.includes pk content = true →
              detectLanguage filePath content = Some "javascript").
Proof.
  intros Hext. split; [by apply detectLanguage_sniff|].
  intros Hsb jk pk Hjk Hpk Hj Hp.
  rewrite detectLanguage_sniff by done. unfold sniff. rewrite Hsb.
  unfold firstMatch, keywords. cbn [List.find fst].
  by rewrite (existsb_includes _ jk).
Qed.

Lemma sniffing_precedence_witness :
  detectLanguage "/srv/docs/run"
    ("#!/usr/bin/env python" +:+ String "010"%char ("print(" +:+ quoted "hi" +:+ ")"))
  = Some "python"
  ∧ detectLanguage "/srv/docs/run" "function f(){}" = Some "javascript"
  ∧ detectLanguage "/srv/docs/run" "hello world" = None
  ∧ detectLanguage "/srv/docs/run" "import os; const x = 1" = Some "javascript".
Proof.
  split_and!.
  - rewrite (proj1 (sniffing_precedence "/srv/docs/run" _ eq_refl)). reflexivity.
  - rewrite (proj1 (sniffing_precedence "/srv/docs/run" _ eq_refl)). reflexivity.
  - rewrite (proj1 (sniffing_precedence "/srv/docs/run" _ eq_refl)). reflexivity.
  - apply (proj2 (sniffing_precedence "/srv/docs/run" "import os; const x = 1" eq_refl)
             eq_refl "const " "import ");
      try reflexivity; vm_compute; repeat constructor.
Defined.

(** ** The request handler *)

Section Handler.

Context (host : Host) (fs : FileSystem).

Lemma admitted_guard ROOT_DIR fullPath :
  admitted host ROOT_DIR fullPath →
  negb (isSubPath host ROOT_DIR fullPath)
  && negb (bool_decide (fullPath = ROOT_DIR)) = false.
Proof.
  intros [-> | ->]; [done|]. rewrite bool_decide_eq_true_2 by done.
  by rewrite andb_false_r.
Qed.

Lemma relative_not_absolute from to :
  Path.isAbsolute (Path.relative (cwd host) from to) = false.
Proof.
  rewrite relative_eq.
  pose proof (segments_wf (Path.resolve (cwd host) to)) as Hwf.
  fold (resolvedSegments host to) in Hwf.
  destruct (stripCommon_spec (resolvedSegments host from)
              (resolvedSegments host to)) as (c & _ & Ht & _).
  destruct (Path.stripCommon _ _) as [up down]. simpl in Ht.
  destruct up as [|u up].
  - change (map _ [] ++ down) with down. destruct down as [|d ds]; [done|].
    rewrite Ht in Hwf. apply Forall_app in Hwf as [_ Hwf].
    inversion_clear Hwf as [|? ? [Hne Hsep] _]. by apply join_not_absolute.
  - change (map _ (u :: up) ++ down)
      with (".." :: (map (λ _ : string, "..") up ++ down)).
    by apply join_not_absolute.
Qed.

Lemma decideIgnore_true ig rel s s' :
  decideIgnore ig rel s = (Ok true, s') →
  JS.startsWith ".." rel = false ∧ JS.truthy rel = true.
Proof.
  unfold decideIgnore. destruct (JS.startsWith ".." rel); [done|].
  destruct (JS.truthy rel); [done|]. simpl. done.
Qed.

(** Whatever the ignore engine hides has passed the guard. *)
Lemma ignored_admitted filePath root s :
  (shouldIgnoreFile host fs filePath root s).1 = Ok true →
  admitted host root filePath.
Proof.
  rewrite shouldIgnoreFile_eq.
  destruct (loadGitignoreRules_run host fs root s) as (ig & s' & -> & _).
  destruct (decideIgnore _ _ _) as [r s''] eqn:E. simpl. intros ->.
  apply decideIgnore_true in E as [Hst Htr].
  left. unfold isSubPath. rewrite Hst, Htr, relative_not_absolute.
  by rewrite orb_true_r.
Qed.

(** The handler past the guard and the ignore check. *)
Lemma handler_admitted ROOT_DIR reqPath requestedPath s :
  URI.decodeURIComponent reqPath = Some requestedPath →
  admitted host ROOT_DIR (Path.join ROOT_DIR requestedPath) →
  handler host fs ROOT_DIR reqPath s =
  let fullPath := Path.join ROOT_DIR requestedPath in
  match shouldIgnoreFile host fs fullPath ROOT_DIR s with
  | (Ok true, s1) => (Ok notFound, s1)
  | (Ok false, s1) =>
      tryCatch
        (let* found := existsSync fs fullPath in
         if negb found then ret notFound
         else
           let* stats := statSync fs fullPath in
           if st_isDirectory stats then
             let* files := listDirectory host fs ROOT_DIR fullPath in
             ret (Send 200
                    (generateDirectoryHTML host fullPath files
                       (if bool_decide (requestedPath = "/") then ""
                        else requestedPath)
                       ROOT_DIR))
           else serveFile host fs fullPath requestedPath)
        (λ _, ret (Send 500 "Internal server error")) s1
  | (Throw e, s1) => (Throw e, s1)
  end.
Proof.
  intros Hdec Hadm. unfold handler. rewrite Hdec, admitted_guard by done.
  unfold bind at 1. cbv zeta.
  destruct (shouldIgnoreFile _ _ _ _ _) as [[[|]|e] s1]; reflexivity.
Qed.

(** X20. A request for a path that [shouldIgnoreFile] reports ignored
    and a request for a path that passes the guard, is not reported
    ignored and is absent from the file system get the same response:
    404 with the body [File not found]. *)
Theorem ignored_like_missing (ROOT_DIR : string)
    (hiddenReq hiddenPath missingReq missingPath : string) (s1 s2 : State) :
  URI.decodeURIComponent hiddenReq = Some hiddenPath →
  (shouldIgnoreFile host fs (Path.join ROOT_DIR hiddenPath) ROOT_DIR s1).1
    = Ok true →
  URI.decodeURIComponent missingReq = Some missingPath →
  admitted host ROOT_DIR (Path.join ROOT_DIR missingPath) →
  (shouldIgnoreFile host fs (Path.join ROOT_DIR missingPath) ROOT_DIR s2).1
    = Ok false →
  fs_exists fs (Path.join ROOT_DIR missingPath) = false →
  (handler host fs ROOT_DIR hiddenReq s1).1 = Ok notFound
  ∧ (handler host fs ROOT_DIR missingReq s2).1 = Ok notFound
  ∧ (handler host fs ROOT_DIR hiddenReq s1).1
    = (handler host fs ROOT_DIR missingReq s2).1.
Proof.
  intros Hd1 Hign Hd2 Hadm Hnot Hmiss.
  assert ((handler host fs ROOT_DIR hiddenReq s1).1 = Ok notFound) as E1.
  { rewrite (handler_admitted _ _ hiddenPath) by eauto using ignored_admitted.
    cbv zeta. destruct (shouldIgnoreFile _ _ _ _ s1) as [r s']. simpl in Hign.
    by subst r. }
  assert ((handler host fs ROOT_DIR missingReq s2).1 = Ok notFound) as E2.
  { rewrite (handler_admitted _ _ missingPath) by done.
    cbv zeta. destruct (shouldIgnoreFile _ _ _ _ s2) as [r s']. simpl in Hnot.
    subst r. unfold tryCatch, bind. rewrite existsSync_run, Hmiss. done. }
  by rewrite E1, E2.
Qed.

Lemma textRenderable_spec mime : textRenderable mime = true ↔ textual mime.
Proof.
  unfold textRenderable, textual. destruct mime as [m|]; last first.
  { split; [done|]. by intros (? & ? & _). }
  split.
  - intros [_ Hm]%andb_true_iff. exists m. split; [done|].
    apply orb_true_iff in Hm as [Hm|Hm]; [|right; right; by apply bool_decide_eq_true in Hm].
    apply orb_true_iff in Hm as [Hm|Hm]; [by left|right; left; by apply bool_decide_eq_true in Hm].
  - intros (m' & [= <-] & Hm). apply andb_true_iff. split.
    + destruct Hm as [Hm|[-> | ->]]; [|done..]. by destruct m.
    + destruct Hm as [->|[-> | ->]]; [done|..].
      * by rewrite orb_true_r.
      * by rewrite orb_true_r.
Qed.

(** The handler on an existing file that is not a directory. *)
Lemma handler_file ROOT_DIR reqPath requestedPath s s1 stats :
  let fullPath := Path.join ROOT_DIR requestedPath in
  URI.decodeURIComponent reqPath = Some requestedPath →
  admitted host ROOT_DIR fullPath →
  shouldIgnoreFile host fs fullPath ROOT_DIR s = (Ok false, s1) →
  fs_exists fs fullPath = true →
  fs_stat fs fullPath = Some stats → st_isDirectory stats = false →
  handler host fs ROOT_DIR reqPath s =
  tryCatch (serveFile host fs fullPath requestedPath)
    (λ _, ret (Send 500 "Internal server error"))
    (traced s1 [ExistsSync fullPath; StatSync fullPath]).
Proof.
  intros fullPath Hdec Hadm Hign Hex Hstat Hdir.
  rewrite (handler_admitted _ _ requestedPath) by done. cbv zeta.
  fold fullPath. rewrite Hign.
  unfold tryCatch, bind at 1. rewrite existsSync_run, Hex. cbn [negb].
  unfold bind at 1. rewrite statSync_run, Hstat, Hdir.
  by rewrite traced_app.
Qed.

(** C6. For an existing file that is not a directory, the router reads
    the file and renders it when the MIME type of its path begins with
    [text/] or is the JavaScript or the JSON type; otherwise it hands the
    path to [sendFile] and neither reads nor classifies the content. *)
Theorem mime_gate (ROOT_DIR reqPath requestedPath : string)
    (s s1 : State) (stats : Stats) :
  let fullPath := Path.join ROOT_DIR requestedPath in
  URI.decodeURIComponent reqPath = Some requestedPath →
  admitted host ROOT_DIR fullPath →
  shouldIgnoreFile host fs fullPath ROOT_DIR s = (Ok false, s1) →
  fs_exists fs fullPath = true →
  fs_stat fs fullPath = Some stats → st_isDirectory stats = false →
  (textual (mimeType host fullPath) →
   handler host fs ROOT_DIR reqPath s =
   (match fs_readFile fs fullPath with
    | Some content =>
        let ext := JS.toLowerCase (Path.extname fullPath) in
        Ok (Send 200
              (generateFileHTML host (Path.basename fullPath) content
                 requestedPath (bool_decide (ext = ".md"))
                 (detectLanguage fullPath content)
                 (bool_decide (ext = ".html") || bool_decide (ext = ".htm"))))
    | None => Ok (Send 500 "Internal server error")
    end,
    traced s1 [ExistsSync fullPath; StatSync fullPath; ReadFileSync fullPath]))
  ∧ (¬ textual (mimeType host fullPath) →
     handler host fs ROOT_DIR reqPath s =
     (Ok (SendFile fullPath),
      traced s1 [ExistsSync fullPath; StatSync fullPath])).
Proof.
  intros fullPath Hdec Hadm Hign Hex Hstat Hdir.
  rewrite (handler_file ROOT_DIR reqPath requestedPath s s1 stats) by done.
  fold fullPath. unfold tryCatch, serveFile. split.
  - intros Ht%textRenderable_spec. rewrite Ht.
    unfold bind. rewrite readFileSync_run, !traced_app.
    by destruct (fs_readFile fs fullPath).
  - intros Hn. destruct (textRenderable _) eqn:Ht.
    { by apply textRenderable_spec in Ht. }
    done.
Qed.

End Handler.

(** ** Directory listings *)

Section Listing.

Context (host : Host) (fs : FileSystem).

Lemma entryLe_listedBefore a b : entryLe host a b ↔ listedBefore host a b.
Proof.
  unfold entryLe, compareEntries, listedBefore.
  destruct (isDirectory a), (isDirectory b); simpl; split; intros Hab;
    try lia; try (by left); try (by right);
    destruct Hab as [[? ?]|[? ?]]; done.
Qed.

Lemma entryLe_total :
  ConsistentComparator (localeCompare host) → Total (entryLe host).
Proof.
  intros [Hanti _] a b. unfold entryLe, compareEntries.
  destruct (isDirectory a), (isDirectory b); simpl; try lia.
  - destruct (Z_le_gt_dec (localeCompare host (name a) (name b)) 0) as [|Hgt];
      [by left|right].
    assert (0 < localeCompare host (name a) (name b)) as Hp by lia.
    apply Hanti in Hp. lia.
  - destruct (Z_le_gt_dec (localeCompare host (name a) (name b)) 0) as [|Hgt];
      [by left|right].
    assert (0 < localeCompare host (name a) (name b)) as Hp by lia.
    apply Hanti in Hp. lia.
Qed.

Lemma entryLe_trans :
  ConsistentComparator (localeCompare host) → Transitive (entryLe host).
Proof.
  intros [_ Htr] a b c. unfold entryLe, compareEntries.
  destruct (isDirectory a), (isDirectory b), (isDirectory c); simpl;
    try lia; apply Htr.
Qed.

Lemma StronglySorted_iff {A} (R1 R2 : relation A) l :
  (∀ a b, R1 a b ↔ R2 a b) → StronglySorted R1 l → StronglySorted R2 l.
Proof.
  intros HR. induction 1 as [|a l _ IH Hall]; constructor; [done|].
  eapply Forall_impl; [exact Hall|]. intros b. apply HR.
Qed.

Lemma sortEntries_sorted l :
  ConsistentComparator (localeCompare host) →
  StronglySorted (listedBefore host) (sortEntries host l).
Proof.
  intros Hc. apply (StronglySorted_iff (entryLe host)).
  - apply entryLe_listedBefore.
  - apply (@StronglySorted_merge_sort _ _ _ (entryLe_trans Hc) (entryLe_total Hc)).
Qed.

Lemma sortEntries_elem l e : e ∈ sortEntries host l ↔ e ∈ l.
Proof. unfold sortEntries. by rewrite merge_sort_Permutation. Qed.

Lemma decideIgnore_verdict ig rel s :
  ∃ evs, decideIgnore ig rel s = (verdict ig rel, traced s evs).
Proof.
  unfold decideIgnore, verdict.
  destruct (JS.startsWith ".." rel).
  { exists []. by rewrite traced_nil. }
  destruct (negb (JS.truthy rel) || bool_decide (rel = ".")).
  { exists []. by rewrite traced_nil. }
  unfold bind, emit. cbv zeta. eexists.
  destruct (Ignore.ignores ig _); reflexivity.
Qed.

Lemma shouldIgnoreFile_verdict ig p root s :
  gitignoreCache s !! root = Some ig →
  ∃ evs, shouldIgnoreFile host fs p root s
         = (verdict ig (Path.relative (cwd host) root p), traced s evs).
Proof.
  intros Hc. rewrite (shouldIgnoreFile_hit _ _ _ _ ig) by done.
  apply decideIgnore_verdict.
Qed.

Lemma filterM_ignore ig root paths s kept s' :
  gitignoreCache s !! root = Some ig →
  filterM (λ filePath,
             let* ign := shouldIgnoreFile host fs filePath root in
             ret (negb ign)) paths s = (Ok kept, s') →
  kept = List.filter (listed host ig root) paths ∧ ∃ evs, s' = traced s evs.
Proof.
  revert s kept s'. induction paths as [|p paths IH]; intros s kept s' Hc; simpl.
  { intros [= <- <-]. split; [done|]. exists []. by rewrite traced_nil. }
  unfold bind at 1. unfold bind at 1.
  destruct (shouldIgnoreFile_verdict ig p root s Hc) as (evs & ->).
  unfold listed at 1.
  destruct (verdict ig _) as [b|e]; [|done]. unfold ret at 1.
  unfold bind at 1.
  destruct (filterM _ paths (traced s evs)) as [[ys|e] s2] eqn:E; [|done].
  apply IH in E as [-> (evs2 & ->)]; [|done].
  unfold ret. intros [= <- <-]. split.
  - by destruct b.
  - eexists. by rewrite traced_app.
Qed.

Lemma mapM_getFileInfo paths s infos s' :
  mapM (getFileInfo fs) paths s = (Ok infos, s') →
  Forall2 (describes fs) paths infos.
Proof.
  revert s infos s'. induction paths as [|p paths IH]; intros s infos s'; simpl.
  { intros [= <- <-]. constructor. }
  unfold bind at 1. unfold getFileInfo at 1. unfold bind at 1.
  rewrite statSync_run. destruct (fs_stat fs p) as [stats|] eqn:Hst; [|done].
  unfold ret at 1. unfold bind at 1.
  destruct (mapM _ paths _) as [[ys|e] s2] eqn:E; [|done].
  apply IH in E. unfold ret. intros [= <- <-].
  constructor; [|done]. by exists stats.
Qed.

Lemma Forall2_elem_r {A B} (P : A → B → Prop) l k y :
  Forall2 P l k → y ∈ k → ∃ x, x ∈ l ∧ P x y.
Proof.
  induction 1 as [|a b l k Hab _ IH]; [by intros ?%elem_of_nil|].
  intros [->|Hy]%elem_of_cons.
  - exists a. split; [by left|done].
  - destruct (IH Hy) as (x & Hx & Hp). exists x. split; [by right|done].
Qed.

Lemma Forall2_elem_l {A B} (P : A → B → Prop) l k x :
  Forall2 P l k → x ∈ l → ∃ y, y ∈ k ∧ P x y.
Proof.
  induction 1 as [|a b l k Hab _ IH]; [by intros ?%elem_of_nil|].
  intros [->|Hx]%elem_of_cons.
  - exists b. split; [by left|done].
  - destruct (IH Hx) as (y & Hy & Hp). exists y. split; [by right|done].
Qed.

(** C8. A listing holds only children whose name does not begin with a
    dot and which the ignore engine reports not ignored, it holds every
    such child, and it is ordered directories first, names ascending
    within the directories and within the files. *)
Theorem listing_filtered_and_sorted (ROOT_DIR fullPath : string)
    (ig : Ignore.t) (s s' : State) (files : list FileInfo) :
  ConsistentComparator (localeCompare host) →
  gitignoreCache s !! ROOT_DIR = Some ig →
  listDirectory host fs ROOT_DIR fullPath s = (Ok files, s') →
  ∃ children,
    fs_readdir fs fullPath = Some children
    ∧ (∀ e, e ∈ files →
         ∃ child, child ∈ children
                  ∧ JS.startsWith "." child = false
                  ∧ verdict ig (Path.relative (cwd host) ROOT_DIR
                                  (Path.join fullPath child)) = Ok false
                  ∧ describes fs (Path.join fullPath child) e)
    ∧ (∀ child, child ∈ children →
         JS.startsWith "." child = false →
         verdict ig (Path.relative (cwd host) ROOT_DIR
                       (Path.join fullPath child)) = Ok false →
         ∃ e, e ∈ files ∧ describes fs (Path.join fullPath child) e)
    ∧ StronglySorted (listedBefore host) files.
Proof.
  intros Hcmp Hc. unfold listDirectory. unfold bind at 1.
  rewrite readdirSync_run.
  destruct (fs_readdir fs fullPath) as [children|]; [|done].
  unfold bind at 1.
  destruct (filterM _ _ _) as [[kept|e] s1] eqn:Ef; [|done].
  apply (filterM_ignore ig) in Ef as [Hkept _]; [|done].
  unfold bind at 1.
  destruct (mapM _ kept s1) as [[infos|e] s2] eqn:Em; [|done].
  apply mapM_getFileInfo in Em. unfold ret. intros [= <- <-].
  exists children. split; [done|].
  assert (∀ p, p ∈ kept ↔
               ∃ child, child ∈ children ∧ JS.startsWith "." child = false
                        ∧ p = Path.join fullPath child
                        ∧ verdict ig (Path.relative (cwd host) ROOT_DIR p)
                          = Ok false) as Hk.
  { intros p. rewrite Hkept, list_elem_of_In, filter_In, in_map_iff.
    split.
    - intros [(child & <- & Hin) Hl]. apply filter_In in Hin as [Hin Hv].
      exists child. split_and!; [by apply list_elem_of_In|by apply negb_true_iff|done|].
      unfold listed in Hl. by destruct (verdict _ _) as [[|]|].
    - intros (child & Hin & Hv & -> & Hl). split.
      + exists child. split; [done|]. apply filter_In.
        split; [by apply list_elem_of_In|by apply negb_true_iff].
      + unfold listed. by rewrite Hl. }
  split_and!.
  - intros e He. apply (proj1 (sortEntries_elem _ _)) in He.
    apply (Forall2_elem_r _ _ _ _ Em) in He.
    destruct He as (p & Hp & Hd).
    apply Hk in Hp as (child & Hin & Hv & -> & Hl). by exists child.
  - intros child Hin Hv Hl.
    assert (Path.join fullPath child ∈ kept) as Hp.
    { apply Hk. by exists child. }
    apply (Forall2_elem_l _ _ _ _ Em) in Hp.
    destruct Hp as (e & He & Hd). exists e. split; [|done].
    by apply (proj2 (sortEntries_elem _ _)).
  - by apply sortEntries_sorted.
Qed.

End Listing.

(** ** The example collation is a consistent comparator *)

Section Collation.

Lemma ascii_compare_N a b :
  Ascii.compare a b = (N_of_ascii a ?= N_of_ascii b)%N.
Proof. reflexivity. Qed.

Lemma ascii_compare_trans a b c :
  Ascii.compare a b ≠ Gt → Ascii.compare b c ≠ Gt →
  Ascii.compare a c ≠ Gt
  ∧ (Ascii.compare a c = Eq → Ascii.compare a b = Eq ∧ Ascii.compare b c = Eq).
Proof.
  rewrite !ascii_compare_N.
  destruct (N.compare_spec (N_of_ascii a) (N_of_ascii b));
    destruct (N.compare_spec (N_of_ascii b) (N_of_ascii c));
    destruct (N.compare_spec (N_of_ascii a) (N_of_ascii c));
    try done; try lia.
Qed.

Lemma string_compare_trans a b c :
  String.compare a b ≠ Gt → String.compare b c ≠ Gt → String.compare a c ≠ Gt.
Proof.
  revert b c. induction a as [|x a IH]; intros [|y b] [|z c]; simpl; try done.
  intros Hab Hbc.
  assert (Ascii.compare x y ≠ Gt) as Hxy
    by (by destruct (Ascii.compare x y)).
  assert (Ascii.compare y z ≠ Gt) as Hyz
    by (by destruct (Ascii.compare y z)).
  destruct (ascii_compare_trans x y z Hxy Hyz) as [Hxz Heq].
  destruct (Ascii.compare x z) eqn:E; [|done..].
  destruct (Heq eq_refl) as [E1 E2]. rewrite E1 in Hab. rewrite E2 in Hbc.
  by apply (IH b c).
Qed.

Lemma collate_consistent : ConsistentComparator Demo.collate.
Proof.
  split.
  - intros a b. unfold Demo.collate.
    rewrite (String.compare_antisym (JS.toLowerCase b)).
    destruct (String.compare (JS.toLowerCase a) (JS.toLowerCase b)); simpl; lia.
  - intros a b c. unfold Demo.collate. intros Hab Hbc.
    pose proof (string_compare_trans (JS.toLowerCase a) (JS.toLowerCase b)
                  (JS.toLowerCase c)) as Ht.
    destruct (String.compare (JS.toLowerCase a) (JS.toLowerCase b)); try lia;
      destruct (String.compare (JS.toLowerCase b) (JS.toLowerCase c)); try lia;
      destruct (String.compare (JS.toLowerCase a) (JS.toLowerCase c)); try lia;
      exfalso; by apply Ht.
Qed.

End Collation.

(** ** The claims on the example tree *)

Lemma ignored_like_missing_witness :
  (handler Demo.host Demo.fs "/srv/docs" "/secret" Demo.fresh).1 = Ok notFound
  ∧ (handler Demo.host Demo.fs "/srv/docs" "/nothing" Demo.fresh).1 = Ok notFound
  ∧ Demo.node Demo.tree "/srv/docs/secret" = Some (Demo.File "hunter2")
  ∧ Demo.node Demo.tree "/srv/docs/nothing" = None.
Proof.
  destruct (ignored_like_missing Demo.host Demo.fs "/srv/docs"
              "/secret" "/secret" "/nothing" "/nothing" Demo.fresh Demo.fresh)
    as (E1 & E2 & _); try reflexivity.
  - left. reflexivity.
  - split_and!; [exact E1|exact E2|reflexivity..].
Defined.

Lemma mime_gate_witness :
  (handler Demo.host Demo.fs "/srv/docs" "/a.txt" (loaded Demo.fs)).1
  = Ok (Send 200 "a.txt:plain:ay")
  ∧ (handler Demo.host Demo.fs "/srv/docs" "/logo.png" (loaded Demo.fs)).1
    = Ok (SendFile "/srv/docs/logo.png")
  ∧ trace (handler Demo.host Demo.fs "/srv/docs" "/logo.png" (loaded Demo.fs)).2
    = trace (loaded Demo.fs)
      ++ [Ignores "logo.png"; ExistsSync "/srv/docs/logo.png";
          StatSync "/srv/docs/logo.png"].
Proof.
  pose (st := {| st_isDirectory := false; st_size := 2%N; st_mtime := 0 |}).
  pose (pst := {| st_isDirectory := false; st_size := 3%N; st_mtime := 0 |}).
  destruct (mime_gate Demo.host Demo.fs "/srv/docs" "/a.txt" "/a.txt"
              (loaded Demo.fs) (traced (loaded Demo.fs) [Ignores "a.txt"]) st)
    as [Htext _]; try reflexivity.
  { left. reflexivity. }
  destruct (mime_gate Demo.host Demo.fs "/srv/docs" "/logo.png" "/logo.png"
              (loaded Demo.fs) (traced (loaded Demo.fs) [Ignores "logo.png"]) pst)
    as [_ Hraw]; try reflexivity.
  { left. reflexivity. }
  rewrite Htext, Hraw.
  - split_and!; reflexivity.
  - intros (m & Hm & Hcases). vm_compute in Hm. injection Hm as <-.
    destruct Hcases as [Hc|[Hc|Hc]]; discriminate Hc.
  - exists "text/plain". split; [reflexivity|]. left. reflexivity.
Defined.

Lemma listing_filtered_and_sorted_witness :
  ∃ files s',
    listDirectory Demo.host (Demo.fsOf Demo.plainTree) "/srv/docs" "/srv/docs"
      (loaded (Demo.fsOf Demo.plainTree)) = (Ok files, s')
    ∧ map name files = ["A"; "a.txt"; "b.txt"]
    ∧ StronglySorted (listedBefore Demo.host) files.
Proof.
  set (fs := Demo.fsOf Demo.plainTree).
  set (r := listDirectory Demo.host fs "/srv/docs" "/srv/docs" (loaded fs)).
  assert (map name <$> match r.1 with Ok l => Some l | Throw _ => None end
          = Some ["A"; "a.txt"; "b.txt"]) as Hr by reflexivity.
  destruct r as [[files|e] s'] eqn:Er; [|discriminate Hr].
  exists files, s'. split; [reflexivity|]. split; [by injection Hr|].
  destruct (listing_filtered_and_sorted Demo.host fs "/srv/docs" "/srv/docs"
              [gitRule Demo.host] (loaded fs) s' files collate_consistent
              eq_refl Er) as (children & _ & _ & _ & Hsorted).
  exact Hsorted.
Defined.

(** ** Further facts about the handler *)

Section HandlerFacts.

Context (host : Host) (fs : FileSystem).

(** A path that cannot be decoded makes the handler throw before it does
    anything else; nothing in the handler catches the error. *)
Lemma handler_decode_failure ROOT_DIR reqPath s :
  URI.decodeURIComponent reqPath = None →
  handler host fs ROOT_DIR reqPath s = (Throw URIError, s).
Proof. intros Hdec. unfold handler. by rewrite Hdec. Qed.

(** [shouldIgnoreFile] keeps the cache well formed. *)
Lemma shouldIgnoreFile_cacheOk p root s :
  cacheOk host s → cacheOk host (shouldIgnoreFile host fs p root s).2.
Proof.
  intros Hok. rewrite shouldIgnoreFile_eq.
  destruct (loadGitignoreRules_run host fs root s)
    as (ig & s' & -> & _ & _ & _ & _ & Hok').
  specialize (Hok' Hok). intros r ig'. rewrite decideIgnore_cache. apply Hok'.
Qed.


(** When the listing is taken the rules of the root are in the cache. *)
Lemma listing_rules_cached ROOT_DIR fullPath s evs :
  ∃ ig, gitignoreCache
          (traced (shouldIgnoreFile host fs fullPath ROOT_DIR s).2 evs)
        !! ROOT_DIR = Some ig.
Proof. apply shouldIgnoreFile_caches. Qed.

End HandlerFacts.

(** * Further properties of the code *)

(** ** The loader and its cache *)

Section LoaderFacts.

Context (host : Host) (fs : FileSystem).

(** The rules the loop returns and the operations it performs do not
    depend on the state it starts from; the operations are probes and
    reads of ignore files. *)
Lemma loadLoop_value fuel ig dir checked :
  ∃ more evs,
    Forall ignoreFileProbe evs
    ∧ ∀ s, loadLoop host fs fuel ig dir checked s
           = (Ok (ig ++ more), traced s evs).
Proof.
  revert ig dir checked.
  induction fuel as [|fuel IH]; intros ig dir checked; simpl.
  { exists [], []. split; [constructor|]. intros s.
    by rewrite app_nil_r, traced_nil. }
  destruct (JS.truthy dir && bool_decide (dir ∉ checked)); last first.
  { exists [], []. split; [constructor|]. intros s.
    by rewrite app_nil_r, traced_nil. }
  set (file := Path.join dir ".gitignore").
  assert (ignoreFileProbe (ExistsSync file)) as Pe by (exists dir; by left).
  assert (ignoreFileProbe (ReadFileSync file)) as Pr by (exists dir; by right).
  destruct (fs_exists fs file) eqn:Hex;
    [destruct (fs_readFile fs file) as [content|] eqn:Hrd|].
  - destruct (add_extends (makeRegex host) ig content) as (m1 & Hadd).
    destruct (decide (Path.dirname dir = dir)) as [Hd|Hd].
    + exists m1, [ExistsSync file; ReadFileSync file].
      split; [by repeat constructor|]. intros s.
      unfold bind at 1. rewrite existsSync_run, Hex.
      unfold bind at 1, tryCatch, bind at 1. rewrite readFileSync_run, Hrd.
      unfold ret. by rewrite Hadd, !traced_app.
    + destruct (IH (ig ++ m1) (Path.dirname dir) ({[dir]} ∪ checked))
        as (m2 & evs & Hevs & Hrun).
      exists (m1 ++ m2), ([ExistsSync file; ReadFileSync file] ++ evs).
      split; [by repeat constructor|]. intros s.
      unfold bind at 1. rewrite existsSync_run, Hex.
      unfold bind at 1, tryCatch, bind at 1. rewrite readFileSync_run, Hrd.
      unfold ret at 1. rewrite Hadd, Hrun.
      by rewrite !traced_app, <- app_assoc.
  - destruct (decide (Path.dirname dir = dir)) as [Hd|Hd].
    + exists [], [ExistsSync file; ReadFileSync file].
      split; [by repeat constructor|]. intros s.
      unfold bind at 1. rewrite existsSync_run, Hex.
      unfold bind at 1, tryCatch, bind at 1. rewrite readFileSync_run, Hrd.
      unfold ret. by rewrite !traced_app, app_nil_r.
    + destruct (IH ig (Path.dirname dir) ({[dir]} ∪ checked))
        as (m2 & evs & Hevs & Hrun).
      exists m2, ([ExistsSync file; ReadFileSync file] ++ evs).
      split; [by repeat constructor|]. intros s.
      unfold bind at 1. rewrite existsSync_run, Hex.
      unfold bind at 1, tryCatch, bind at 1. rewrite readFileSync_run, Hrd.
      unfold ret at 1. rewrite Hrun. by rewrite !traced_app.
  - destruct (decide (Path.dirname dir = dir)) as [Hd|Hd].
    + exists [], [ExistsSync file].
      split; [by repeat constructor|]. intros s.
      unfold bind at 1. rewrite existsSync_run, Hex.
      unfold bind at 1, ret. by rewrite app_nil_r.
    + destruct (IH ig (Path.dirname dir) ({[dir]} ∪ checked))
        as (m2 & evs & Hevs & Hrun).
      exists m2, ([ExistsSync file] ++ evs).
      split; [by repeat constructor|]. intros s.
      unfold bind at 1. rewrite existsSync_run, Hex.
      unfold bind at 1, ret at 1. rewrite Hrun. by rewrite !traced_app.
Qed.

(** With no ignore file that can be read, the loop adds nothing. *)
Lemma loadLoop_unreadable fuel ig dir checked s :
  (∀ d, fs_exists fs (Path.join d ".gitignore") = true →
        fs_readFile fs (Path.join d ".gitignore") = None) →
  (loadLoop host fs fuel ig dir checked s).1 = Ok ig.
Proof.
  intros Hno. revert dir checked s.
  induction fuel as [|fuel IH]; intros dir checked s; simpl; [done|].
  destruct (JS.truthy dir && bool_decide (dir ∉ checked)); [|done].
  unfold bind at 1. rewrite existsSync_run.
  destruct (fs_exists fs (Path.join dir ".gitignore")) eqn:Hex.
  - unfold bind at 1, tryCatch, bind at 1. rewrite readFileSync_run.
    rewrite (Hno dir Hex). unfold ret at 1.
    destruct (decide (Path.dirname dir = dir)); [done|]. apply IH.
  - unfold bind at 1, ret at 1.
    destruct (decide (Path.dirname dir = dir)); [done|]. apply IH.
Qed.

Lemma cacheKept_refl s : cacheKept s s.
Proof. by intros r _. Qed.

Lemma cacheKept_trans s1 s2 s3 :
  cacheKept s1 s2 → cacheKept s2 s3 → cacheKept s1 s3.
Proof.
  intros H12 H23 r Hr. rewrite <- (H12 r Hr). apply H23.
  by rewrite (H12 r Hr).
Qed.

Lemma cacheKept_traced s evs : cacheKept s (traced s evs).
Proof. by intros r _. Qed.

End LoaderFacts.

(** X3.  [loadGitignoreRules] never throws, whatever the file
    system answers: it returns a rule set, leaves it in the cache under the
    root, changes no other entry, and on the way only looks at and reads
    files named [.gitignore]. *)
Theorem loader_total_and_tidy (host : Host) (fs : FileSystem)
    (root : string) (s : State) :
  ∃ ig evs,
    loadGitignoreRules host fs root s
    = (Ok ig, {| gitignoreCache := <[root := ig]> (gitignoreCache s);
                 trace := trace s ++ evs |})
    ∧ Forall ignoreFileProbe evs
    ∧ cacheKept s {| gitignoreCache := <[root := ig]> (gitignoreCache s);
                     trace := trace s ++ evs |}.
Proof.
  unfold loadGitignoreRules, bind at 1, getCache.
  destruct (gitignoreCache s !! root) as [ig|] eqn:E.
  - exists ig, []. rewrite insert_id by done. unfold ret.
    rewrite app_nil_r. destruct s; simpl. split_and!; [done|constructor|].
    by intros r _.
  - destruct (loadLoop_value host fs (loopBound root)
                (Ignore.add (makeRegex host) [] ".git") root ∅)
      as (more & evs & Hevs & Hrun).
    exists (Ignore.add (makeRegex host) [] ".git" ++ more), evs.
    unfold bind at 1. rewrite Hrun. unfold bind, setCache, ret. simpl.
    split_and!; [done..|].
    intros r [x Hr]. simpl. rewrite lookup_insert_ne; [done|]. congruence.
Qed.

(** X4.  Once the rules of a root are loaded, a later load returns
    the same rules and touches neither the file system nor the state, even
    if the ignore files have changed in the meantime. *)
Theorem loader_cache_is_stale (host : Host) (fs fs' : FileSystem)
    (root : string) (s s1 : State) (ig : Ignore.t) :
  loadGitignoreRules host fs root s = (Ok ig, s1) →
  loadGitignoreRules host fs' root s1 = (Ok ig, s1).
Proof.
  intros Hload.
  destruct (loadGitignoreRules_run host fs root s) as (ig0 & s0 & E & Hc & _).
  rewrite E in Hload. injection Hload as <- <-.
  by apply loadGitignoreRules_hit.
Qed.

Lemma loader_cache_is_stale_witness :
  ∃ ig s1,
    loadGitignoreRules Demo.host Demo.fs "/srv/docs" Demo.fresh = (Ok ig, s1)
    ∧ loadGitignoreRules Demo.host (Demo.fsOf Demo.negatedTree) "/srv/docs" s1
      = (Ok ig, s1)
    ∧ map Ignore.origin ig = [".git"; "secret"].
Proof.
  destruct (loadGitignoreRules Demo.host Demo.fs "/srv/docs" Demo.fresh)
    as [r s1] eqn:E.
  assert (r = Ok [gitRule Demo.host; Ignore.createRule Demo.literalRegex "secret"])
    as -> by (by apply (f_equal fst) in E).
  eexists _, s1. split; [reflexivity|]. split; [|reflexivity].
  exact (loader_cache_is_stale Demo.host Demo.fs (Demo.fsOf Demo.negatedTree)
           "/srv/docs" Demo.fresh s1 _ E).
Defined.

(** X5.  After [clearGitignoreCache] the cache is empty, and the
    next load returns the rules a process that has just started would load:
    nothing of the earlier cache is left. *)
Theorem clear_forgets_everything (host : Host) (fs : FileSystem)
    (root : string) (s : State) :
  gitignoreCache (clearGitignoreCache s).2 = ∅
  ∧ trace (clearGitignoreCache s).2 = trace s
  ∧ (loadGitignoreRules host fs root (clearGitignoreCache s).2).1
    = (loadGitignoreRules host fs root
         {| gitignoreCache := ∅; trace := [] |}).1.
Proof.
  split_and!; [done..|].
  assert (∀ s0, gitignoreCache s0 = ∅ →
                ∃ more, (loadGitignoreRules host fs root s0).1
                        = Ok (Ignore.add (makeRegex host) [] ".git" ++ more)
                        ∧ ∀ s1, gitignoreCache s1 = ∅ →
                                (loadGitignoreRules host fs root s1).1
                                = Ok (Ignore.add (makeRegex host) [] ".git" ++ more))
    as Hfresh.
  { destruct (loadLoop_value host fs (loopBound root)
                (Ignore.add (makeRegex host) [] ".git") root ∅)
      as (more & evs & _ & Hrun).
    assert (∀ s1, gitignoreCache s1 = ∅ →
                  (loadGitignoreRules host fs root s1).1
                  = Ok (Ignore.add (makeRegex host) [] ".git" ++ more)) as Hall.
    { intros s1 H1. unfold loadGitignoreRules, bind at 1, getCache.
      rewrite H1, lookup_empty. unfold bind at 1. rewrite Hrun. done. }
    intros s0 H0. exists more. split; [by apply Hall|exact Hall]. }
  destruct (Hfresh (clearGitignoreCache s).2 eq_refl) as (more & -> & Hall).
  symmetry. by apply Hall.
Qed.

(** X6.  Ignore files that are absent or cannot be read contribute
    nothing: when no existing [.gitignore] is readable, the rule set built
    for a root not yet cached is the implicit rule alone. *)
Theorem unreadable_ignore_files_skipped (host : Host) (fs : FileSystem)
    (root : string) (s : State) :
  gitignoreCache s !! root = None →
  (∀ d, fs_exists fs (Path.join d ".gitignore") = true →
        fs_readFile fs (Path.join d ".gitignore") = None) →
  (loadGitignoreRules host fs root s).1 = Ok [gitRule host].
Proof.
  intros Hmiss Hno. unfold loadGitignoreRules, bind at 1, getCache.
  rewrite Hmiss. unfold bind at 1.
  pose proof (loadLoop_unreadable host fs (loopBound root)
                (Ignore.add (makeRegex host) [] ".git") root ∅ s Hno) as E.
  destruct (loadLoop _ _ _ _ _ _ s) as [r s']. simpl in E. subst r.
  reflexivity.
Qed.

Lemma unreadable_ignore_files_skipped_witness :
  (loadGitignoreRules Demo.host
     {| fs_exists := λ _, true; fs_stat := λ _, None;
        fs_readdir := λ _, None; fs_readFile := λ _, None |}
     "/srv/docs" Demo.fresh).1
  = Ok [gitRule Demo.host].
Proof.
  apply (unreadable_ignore_files_skipped Demo.host); [reflexivity|].
  intros d _. reflexivity.
Defined.

(** ** The guard, the ignore check and the paths they see *)

Section CheckFacts.

Context (host : Host) (fs : FileSystem).

(** The relative path from the root, read on segments: nothing, a string
    that begins with two dots, or the joined segments below the root, the
    first of which does not begin with two dots. *)
Lemma relative_cases root p :
  Path.isAbsolute (cwd host) = true →
  let rel := Path.relative (cwd host) root p in
  rel = "" ∨ JS.startsWith ".." rel = true
  ∨ ∃ d ds, rel = JS.join "/" (d :: ds) ∧ Forall plain (d :: ds)
            ∧ JS.startsWith ".." d = false
            ∧ resolvedSegments host p = resolvedSegments host root ++ d :: ds.
Proof.
  intros Hcwd rel. subst rel. rewrite relative_eq.
  pose proof (resolvedSegments_plain host p) as Hpl.
  rewrite Hcwd, orb_true_r in Hpl. specialize (Hpl eq_refl).
  destruct (stripCommon_spec (resolvedSegments host root)
              (resolvedSegments host p)) as (c & Hf & Ht & _).
  destruct (Path.stripCommon _ _) as [up down]. simpl in Hf, Ht.
  destruct up as [|u up].
  - change (map _ [] ++ down) with down. rewrite app_nil_r in Hf. subst c.
    destruct down as [|d ds]; [by left|]. right.
    rewrite Ht in Hpl. apply Forall_app in Hpl as [_ Hdown].
    assert (plain d) as Hd by (by inversion Hdown).
    assert (JS.startsWith ".." (JS.join "/" (d :: ds)) = JS.startsWith ".." d)
      as -> by (apply startsWith_join_head; done || apply Hd).
    destruct (JS.startsWith ".." d) eqn:Hst; [by left|right].
    by exists d, ds.
  - right. left.
    change (map _ (u :: up) ++ down)
      with (".." :: (map (λ _ : string, "..") up ++ down)).
    by rewrite (startsWith_join_head ".." "..").
Qed.

Lemma shouldIgnoreFile_false_cases p root s :
  p = root ∨ JS.startsWith ".." (Path.relative (cwd host) root p) = true →
  (shouldIgnoreFile host fs p root s).1 = Ok false.
Proof.
  intros Hp. rewrite shouldIgnoreFile_eq.
  destruct (loadGitignoreRules_run host fs root s) as (ig & s' & -> & _).
  rewrite decideIgnore_false; [done|].
  destruct Hp as [->|Hp]; [right|by left].
  unfold Path.relative. by rewrite decide_True.
Qed.

Lemma shouldIgnoreFile_outcome p root s :
  (∃ b, (shouldIgnoreFile host fs p root s).1 = Ok b)
  ∨ ∃ q, (shouldIgnoreFile host fs p root s).1 = Throw (IgnoreError q).
Proof.
  rewrite shouldIgnoreFile_eq.
  destruct (loadGitignoreRules_run host fs root s) as (ig & s' & -> & _).
  destruct (decideIgnore_verdict ig
              (Path.relative (cwd host) root p) s') as (evs & ->).
  cbn [fst]. unfold verdict.
  destruct (JS.startsWith ".." _); [left; by eexists|].
  destruct (negb _ || _); [left; by eexists|].
  destruct (Ignore.ignores _ _); [left|right]; by eexists.
Qed.

Lemma lastSegment_abs l x tail :
  Forall plain (l ++ [x]) → tail = "" ∨ tail = "/" →
  Path.lastSegment ("/" +:+ JS.join "/" (l ++ [x]) +:+ tail) = x.
Proof.
  intros Hl Ht. unfold Path.lastSegment.
  rewrite segments_abs by done. by rewrite rev_unit.
Qed.

Lemma join_child_shape dir child :
  Path.isAbsolute dir = true → plain child →
  ∃ tail, (tail = "" ∨ tail = "/")
          ∧ Path.join dir child
            = "/" +:+ JS.join "/" (Path.normSegments false dir ++ [child])
              +:+ tail.
Proof.
  intros Habs Hc.
  assert (Path.normSegments false (Path.join dir child)
          = Path.normSegments false dir ++ [child]) as Hseg.
  { rewrite normSegments_join by done.
    rewrite splitOn_plain by apply Hc. cbn [fold_left].
    rewrite normStep_keep by done. cbn [rev]. by rewrite rev_involutive. }
  unfold Path.join in *. rewrite (isAbsolute_truthy _ Habs) in *.
  rewrite (proj2 (truthy_true child)) in * by apply Hc.
  assert (Path.isAbsolute (dir +:+ "/" +:+ child) = true) as Habs'
    by (by destruct dir).
  destruct (normalize_abs _ Habs') as (tail & Ht & E).
  exists tail. split; [done|]. rewrite E. rewrite E in Hseg.
  rewrite normSegments_abs in Hseg by (apply normSegments_plain || done).
  by rewrite Hseg.
Qed.

End CheckFacts.

(** X1.  [isSubPath] answers true exactly when the child resolves to
    the parent or below it and the first segment below the parent does not
    begin with two dots.  In particular it never accepts a path outside the
    parent. *)
Theorem guard_exact (host : Host) (parent child : string) :
  (isSubPath host parent child = true ↔
   ∃ rest, resolvedSegments host child = resolvedSegments host parent ++ rest
           ∧ match rest with
             | [] => True
             | d :: _ => JS.startsWith ".." d = false
             end)
  ∧ (isSubPath host parent child = true → contained host parent child).
Proof.
  split; [apply isSubPath_true_iff|apply isSubPath_contained].
Qed.



(** X7.  The ignore check cannot fail on a relative path without a
    backslash: when the working directory is absolute, [shouldIgnoreFile]
    returns a boolean for every such path, whatever the rules. *)
Theorem ignore_check_returns (host : Host) (fs : FileSystem)
    (filePath root : string) (s : State) :
  Path.isAbsolute (cwd host) = true →
  JS.hasChar Ignore.backslash (Path.relative (cwd host) root filePath) = false →
  ∃ b, (shouldIgnoreFile host fs filePath root s).1 = Ok b.
Proof.
  intros Hcwd Hbs. rewrite shouldIgnoreFile_eq.
  destruct (loadGitignoreRules_run host fs root s) as (ig & s' & -> & _).
  destruct (decideIgnore_verdict ig
              (Path.relative (cwd host) root filePath) s') as (evs & ->).
  cbn [fst]. unfold verdict.
  destruct (relative_cases host root filePath Hcwd)
    as [E|[E|(d & ds & E & Hpl & Hst & _)]].
  - rewrite E. by eexists.
  - rewrite E. by eexists.
  - rewrite (replaceAll_id _ _ _ Hbs). rewrite E.
    assert (plain d) as Hd by (by inversion Hpl).
    rewrite startsWith_join_head by (done || apply Hd). rewrite Hst.
    destruct (negb _ || _); [by eexists|].
    unfold Ignore.ignores. rewrite join_truthy by apply Hd.
    rewrite invalidPath_plain by done. by eexists.
Qed.

Lemma ignore_check_returns_witness :
  ∃ b, (shouldIgnoreFile Demo.host Demo.fs "/srv/docs/A/x.md" "/srv/docs"
          Demo.fresh).1 = Ok b.
Proof.
  apply (ignore_check_returns Demo.host Demo.fs); reflexivity.
Defined.

(** X8.  A name that begins with a backslash breaks the request:
    the guard lets [root/\x] through, the separator rewrite turns its
    relative path into [/x], the ignore package refuses that path, and the
    error leaves the handler, which calls [shouldIgnoreFile] outside its
    [try] block. *)
Theorem backslash_name_throws (host : Host) (fs : FileSystem)
    (ROOT_DIR x reqPath : string) (s : State) :
  let name := String Ignore.backslash x in
  Path.isAbsolute ROOT_DIR = true →
  JS.hasChar "/"%char x = false →
  URI.decodeURIComponent reqPath = Some ("/" +:+ name) →
  let normalized := JS.replaceAll Ignore.backslash "/"%char name in
  isSubPath host ROOT_DIR (Path.join ROOT_DIR ("/" +:+ name)) = true
  ∧ (shouldIgnoreFile host fs (Path.join ROOT_DIR ("/" +:+ name)) ROOT_DIR s).1
    = Throw (IgnoreError normalized)
  ∧ (handler host fs ROOT_DIR reqPath s).1 = Throw (IgnoreError normalized).
Proof.
  intros name Habs Hx Hdec normalized.
  assert (plain name) as Hpl.
  { unfold plain, name. split_and!; try done. }
  destruct (resolvedSegments_child host ROOT_DIR name Habs Hpl) as [_ Hseg].
  assert (Path.relative (cwd host) ROOT_DIR (Path.join ROOT_DIR ("/" +:+ name))
          = name) as Hrel by (by rewrite (relative_below host _ _ [name])).
  assert (isSubPath host ROOT_DIR (Path.join ROOT_DIR ("/" +:+ name)) = true)
    as Hsub.
  { apply isSubPath_true_iff. by exists [name]. }
  assert ((shouldIgnoreFile host fs (Path.join ROOT_DIR ("/" +:+ name))
             ROOT_DIR s).1 = Throw (IgnoreError normalized)) as Hthrow.
  { rewrite shouldIgnoreFile_eq.
    destruct (loadGitignoreRules_run host fs ROOT_DIR s) as (ig & s' & -> & _).
    destruct (decideIgnore_verdict ig
                (Path.relative (cwd host) ROOT_DIR
                   (Path.join ROOT_DIR ("/" +:+ name))) s') as (evs & ->).
    cbn [fst]. rewrite Hrel. unfold verdict, normalized, name.
    rewrite startsWith_cons.
    change (Ascii.eqb "." Ignore.backslash) with false. cbn [andb].
    cbn [JS.truthy negb orb]. rewrite bool_decide_eq_false_2 by done.
    cbn [JS.replaceAll]. rewrite Ascii.eqb_refl.
    unfold Ignore.ignores, Ignore.invalidPath. cbn [JS.truthy negb orb].
    cbn [Ignore.dropDots]. change (Ascii.eqb "/" ".") with false. cbv iota.
    by rewrite startsWith_cons, Ascii.eqb_refl, startsWith_nil. }
  split_and!; [done..|].
  rewrite (handler_admitted host fs _ _ ("/" +:+ name)) by (done || by left).
  cbv zeta. destruct (shouldIgnoreFile _ _ _ _ s) as [r s']. simpl in Hthrow.
  by subst r.
Qed.

Lemma backslash_name_throws_witness :
  (handler Demo.host Demo.fs "/srv/docs" "/%5Cnotes" Demo.fresh).1
  = Throw (IgnoreError "/notes").
Proof.
  exact (proj2 (proj2
    (backslash_name_throws Demo.host Demo.fs "/srv/docs" "notes" "/%5Cnotes"
       Demo.fresh eq_refl eq_refl eq_refl))).
Defined.

(** X9.  [filterIgnoredFiles] returns its input with some paths
    left out and nothing else changed: the result is a subsequence of the
    input, and the root itself and every path whose relative path begins
    with two dots are always kept. *)
Theorem filter_keeps_order_and_outsiders (host : Host) (fs : FileSystem)
    (filePaths kept : list string) (rootDir : string) (s s' : State) :
  filterIgnoredFiles host fs filePaths rootDir s = (Ok kept, s') →
  kept `sublist_of` filePaths
  ∧ ∀ p, p ∈ filePaths →
         p = rootDir
         ∨ JS.startsWith ".." (Path.relative (cwd host) rootDir p) = true →
         p ∈ kept.
Proof.
  unfold filterIgnoredFiles. revert kept s s'.
  induction filePaths as [|q paths IH]; intros kept s s'; simpl.
  { intros [= <- <-]. split; [done|]. by intros p ?%elem_of_nil. }
  unfold bind at 1. unfold bind at 1.
  pose proof (shouldIgnoreFile_false_cases host fs q rootDir s) as Hq.
  destruct (shouldIgnoreFile host fs q rootDir s) as [[b|e] s1]; [|done].
  unfold ret at 1. unfold bind at 1.
  destruct (filterM _ paths s1) as [[ys|e] s2] eqn:E; [|done].
  apply IH in E as [Hsub Hkeep]. unfold ret. intros [= <- <-]. split.
  - destruct b; simpl; [by apply sublist_cons|by apply sublist_skip].
  - intros p [->|Hin]%elem_of_cons Hp.
    + specialize (Hq Hp). simpl in Hq. injection Hq as ->. simpl. by left.
    + destruct b; simpl; [|right]; by apply Hkeep.
Qed.

Lemma filter_keeps_order_and_outsiders_witness :
  (filterIgnoredFiles Demo.host Demo.fs
     ["/srv/docs/b.txt"; "/srv/docs/secret"; "/etc/passwd"; "/srv/docs";
      "/srv/docs/.git/config"; "/srv/docs/a.txt"]
     "/srv/docs" Demo.fresh).1
  = Ok ["/srv/docs/b.txt"; "/etc/passwd"; "/srv/docs"; "/srv/docs/a.txt"]
  ∧ "/etc/passwd" ∈ ["/srv/docs/b.txt"; "/etc/passwd"; "/srv/docs"; "/srv/docs/a.txt"].
Proof.
  split; [reflexivity|].
  destruct (filterIgnoredFiles Demo.host Demo.fs
     ["/srv/docs/b.txt"; "/srv/docs/secret"; "/etc/passwd"; "/srv/docs";
      "/srv/docs/.git/config"; "/srv/docs/a.txt"]
     "/srv/docs" Demo.fresh) as [r s'] eqn:E.
  assert (r = Ok ["/srv/docs/b.txt"; "/etc/passwd"; "/srv/docs"; "/srv/docs/a.txt"])
    as -> by (by apply (f_equal fst) in E).
  apply (proj2 (filter_keeps_order_and_outsiders _ _ _ _ _ _ _ E)).
  - vm_compute. repeat constructor.
  - right. reflexivity.
Defined.

(** X10.  The entry of a child carries the child's name: for an
    absolute directory and a name that is a single ordinary segment,
    [basename(join(directory, name))] is the name, and so is the [name]
    field of what [getFileInfo] returns for the joined path. *)
Theorem child_entry_is_named_after_child (fs : FileSystem)
    (dir child : string) (s s' : State) (e : FileInfo) :
  Path.isAbsolute dir = true →
  child ≠ "" → child ≠ "." → child ≠ ".." → JS.hasChar "/"%char child = false →
  getFileInfo fs (Path.join dir child) s = (Ok e, s') →
  Path.basename (Path.join dir child) = child ∧ name e = child.
Proof.
  intros Habs H1 H2 H3 H4 Hinfo.
  assert (plain child) as Hc by done.
  assert (Path.basename (Path.join dir child) = child) as Hb.
  { destruct (join_child_shape dir child Habs Hc) as (tail & Ht & ->).
    apply lastSegment_abs; [|done].
    apply Forall_app. split; [apply normSegments_plain|by constructor]. }
  split; [done|].
  unfold getFileInfo, bind in Hinfo. rewrite statSync_run in Hinfo.
  destruct (fs_stat fs _); [|done]. unfold ret in Hinfo.
  injection Hinfo as <- _. exact Hb.
Qed.

Lemma child_entry_is_named_after_child_witness :
  ∃ e s', getFileInfo Demo.fs (Path.join "/srv/docs/A/../" "b.txt") Demo.fresh
          = (Ok e, s')
          ∧ name e = "b.txt".
Proof.
  destruct (getFileInfo Demo.fs (Path.join "/srv/docs/A/../" "b.txt") Demo.fresh)
    as [[e|x] s'] eqn:E; [|by vm_compute in E].
  exists e, s'. split; [done|].
  apply (child_entry_is_named_after_child Demo.fs "/srv/docs/A/../" "b.txt"
           Demo.fresh s' e); done.
Defined.

(** ** What a request does to the cache, and what it can end in *)

Section RequestFacts.

Context (host : Host) (fs : FileSystem).

Lemma steady_refl s : steady host s s.
Proof. split; [apply cacheKept_refl|done]. Qed.

Lemma steady_trans s1 s2 s3 :
  steady host s1 s2 → steady host s2 s3 → steady host s1 s3.
Proof.
  intros [K12 O12] [K23 O23]. split; [by eapply cacheKept_trans|auto].
Qed.

Lemma steady_traced s evs : steady host s (traced s evs).
Proof. split; [apply cacheKept_traced|apply cacheOk_traced]. Qed.

Lemma ret_steady {A} (a : A) : Steady host (ret a).
Proof. intros s. apply steady_refl. Qed.

Lemma throw_steady {A} e : Steady host (@throw A e).
Proof. intros s. apply steady_refl. Qed.

Lemma bind_steady {A B} (m : M A) (k : A → M B) :
  Steady host m → (∀ a, Steady host (k a)) → Steady host (bind m k).
Proof.
  intros Hm Hk s. unfold bind. specialize (Hm s).
  destruct (m s) as [[a|e] s1]; [|done].
  eapply steady_trans; [exact Hm|apply Hk].
Qed.

Lemma tryCatch_steady {A} (m : M A) (h : Exn → M A) :
  Steady host m → (∀ e, Steady host (h e)) → Steady host (tryCatch m h).
Proof.
  intros Hm Hh s. unfold tryCatch. specialize (Hm s).
  destruct (m s) as [[a|e] s1]; [done|].
  eapply steady_trans; [exact Hm|apply Hh].
Qed.

Lemma existsSync_steady p : Steady host (existsSync fs p).
Proof. intros s. rewrite existsSync_run. apply steady_traced. Qed.

Lemma statSync_steady p : Steady host (statSync fs p).
Proof. intros s. rewrite statSync_run. apply steady_traced. Qed.

Lemma readdirSync_steady p : Steady host (readdirSync fs p).
Proof. intros s. rewrite readdirSync_run. apply steady_traced. Qed.

Lemma readFileSync_steady p : Steady host (readFileSync fs p).
Proof. intros s. rewrite readFileSync_run. apply steady_traced. Qed.

Lemma shouldIgnoreFile_steady p root :
  Steady host (shouldIgnoreFile host fs p root).
Proof.
  intros s. rewrite shouldIgnoreFile_eq.
  destruct (loadGitignoreRules_run host fs root s)
    as (ig & s' & -> & _ & Hkept & _ & _ & Hok).
  destruct (decideIgnore_verdict ig (Path.relative (cwd host) root p) s')
    as (evs & ->).
  eapply steady_trans; [|apply steady_traced]. by split.
Qed.

Lemma filterM_steady {A} (f : A → M bool) l :
  (∀ x, Steady host (f x)) → Steady host (filterM f l).
Proof.
  intros Hf. induction l as [|x l IH]; simpl; [apply ret_steady|].
  apply bind_steady; [apply Hf|]. intros b.
  apply bind_steady; [apply IH|]. intros ys. apply ret_steady.
Qed.

Lemma mapM_steady {A B} (f : A → M B) l :
  (∀ x, Steady host (f x)) → Steady host (mapM f l).
Proof.
  intros Hf. induction l as [|x l IH]; simpl; [apply ret_steady|].
  apply bind_steady; [apply Hf|]. intros b.
  apply bind_steady; [apply IH|]. intros ys. apply ret_steady.
Qed.

Lemma getFileInfo_steady p : Steady host (getFileInfo fs p).
Proof.
  apply bind_steady; [apply statSync_steady|]. intros st. apply ret_steady.
Qed.

Lemma listDirectory_steady ROOT_DIR fullPath :
  Steady host (listDirectory host fs ROOT_DIR fullPath).
Proof.
  apply bind_steady; [apply readdirSync_steady|]. intros children.
  apply bind_steady.
  - apply filterM_steady. intros p.
    apply bind_steady; [apply shouldIgnoreFile_steady|].
    intros b. apply ret_steady.
  - intros kept. apply bind_steady; [|intros; apply ret_steady].
    apply mapM_steady, getFileInfo_steady.
Qed.

Lemma serveFile_steady fullPath requestedPath :
  Steady host (serveFile host fs fullPath requestedPath).
Proof.
  unfold serveFile. destruct (textRenderable _); [|apply ret_steady].
  apply bind_steady; [apply readFileSync_steady|]. intros c. apply ret_steady.
Qed.

Lemma handler_steady ROOT_DIR reqPath :
  Steady host (handler host fs ROOT_DIR reqPath).
Proof.
  unfold handler. destruct (URI.decodeURIComponent reqPath) as [rp|];
    [|apply throw_steady].
  destruct (negb _ && negb _); [apply ret_steady|].
  apply bind_steady; [apply shouldIgnoreFile_steady|]. intros ign.
  destruct ign; [apply ret_steady|].
  apply tryCatch_steady; [|intros; apply ret_steady].
  apply bind_steady; [apply existsSync_steady|]. intros found.
  destruct (negb found); [apply ret_steady|].
  apply bind_steady; [apply statSync_steady|]. intros stats.
  destruct (st_isDirectory stats); [|apply serveFile_steady].
  apply bind_steady; [apply listDirectory_steady|]. intros files.
  apply ret_steady.
Qed.

(** The entries [getFileInfo] builds are well formed. *)
Lemma fileInfoOf_wellFormed stats p : wellFormedEntry (fileInfoOf stats p).
Proof.
  unfold wellFormedEntry, fileInfoOf. simpl.
  destruct (st_isDirectory stats); split_and!; try done; by split.
Qed.

Lemma listDirectory_infos ROOT_DIR fullPath s files s' :
  listDirectory host fs ROOT_DIR fullPath s = (Ok files, s') →
  ∀ e, e ∈ files → ∃ p, describes fs p e.
Proof.
  unfold listDirectory. unfold bind at 1. rewrite readdirSync_run.
  destruct (fs_readdir fs fullPath) as [children|]; [|done].
  unfold bind at 1. destruct (filterM _ _ _) as [[kept|x] s1]; [|done].
  unfold bind at 1. destruct (mapM _ kept s1) as [[infos|x] s2] eqn:Em; [|done].
  apply mapM_getFileInfo in Em. unfold ret. intros [= <- <-] e He.
  apply (proj1 (sortEntries_elem _ _ _)) in He.
  destruct (Forall2_elem_r _ _ _ _ Em He) as (p & _ & Hp). by exists p.
Qed.

Lemma toLowerCase_truthy s : JS.truthy (JS.toLowerCase s) = JS.truthy s.
Proof. by destruct s. Qed.

End RequestFacts.

(** X11.  A request leaves the rule cache as it found it, but for
    entries it adds: every root that had its rules cached before the request
    has the same rules after it, whatever the request and however it ends,
    and a cache whose rule sets all begin with the implicit rule stays
    so. *)
Theorem request_keeps_cache (host : Host) (fs : FileSystem)
    (ROOT_DIR reqPath : string) (s : State) :
  cacheKept s (handler host fs ROOT_DIR reqPath s).2
  ∧ (cacheOk host s → cacheOk host (handler host fs ROOT_DIR reqPath s).2).
Proof. apply handler_steady. Qed.

(** X12.  A request ends in one of a few ways: 200, 403, 404 or 500
    with the fixed text of the last three, a raw file, or an error thrown
    by the decoder or by the ignore package.  An error of the file system
    never leaves the handler. *)
Theorem request_outcomes (host : Host) (fs : FileSystem)
    (ROOT_DIR reqPath : string) (s : State) :
  expectedOutcome (handler host fs ROOT_DIR reqPath s).1.
Proof.
  unfold handler. destruct (URI.decodeURIComponent reqPath) as [rp|]; [|done].
  destruct (negb _ && negb _); [simpl; auto|].
  unfold bind at 1.
  destruct (shouldIgnoreFile_outcome host fs (Path.join ROOT_DIR rp) ROOT_DIR s)
    as [[b Hb]|[q Hq]];
    destruct (shouldIgnoreFile _ _ _ _ s) as [r s1]; simpl in *; subst r;
    [|done].
  destruct b; [simpl; auto|].
  unfold tryCatch, bind at 1. rewrite existsSync_run.
  destruct (fs_exists fs _); cbn [negb]; [|simpl; auto].
  unfold bind at 1. rewrite statSync_run.
  destruct (fs_stat fs _) as [stats|]; [|simpl; auto 10].
  destruct (st_isDirectory stats).
  - unfold bind at 1.
    destruct (listDirectory _ _ _ _ _) as [[files|e] s2]; simpl; auto 10.
  - unfold serveFile. destruct (textRenderable _); [|done].
    unfold bind. rewrite readFileSync_run.
    destruct (fs_readFile fs _); simpl; auto 10.
Qed.

(** X13.  Once a path has passed the guard and the ignore check and
    exists, a failure of [statSync], or of [readdirSync] on a directory, is
    answered 500 with the text [Internal server error]. *)
Theorem file_system_errors_are_500 (host : Host) (fs : FileSystem)
    (ROOT_DIR reqPath requestedPath : string) (s s1 : State) :
  let fullPath := Path.join ROOT_DIR requestedPath in
  URI.decodeURIComponent reqPath = Some requestedPath →
  admitted host ROOT_DIR fullPath →
  shouldIgnoreFile host fs fullPath ROOT_DIR s = (Ok false, s1) →
  fs_exists fs fullPath = true →
  fs_stat fs fullPath = None
  ∨ (∃ stats, fs_stat fs fullPath = Some stats ∧ st_isDirectory stats = true
              ∧ fs_readdir fs fullPath = None) →
  (handler host fs ROOT_DIR reqPath s).1 = Ok (Send 500 "Internal server error").
Proof.
  intros fullPath Hdec Hadm Hign Hex Hfail.
  rewrite (handler_admitted host fs _ _ requestedPath) by done. cbv zeta.
  fold fullPath. rewrite Hign.
  unfold tryCatch, bind at 1. rewrite existsSync_run, Hex. cbn [negb].
  unfold bind at 1. rewrite statSync_run.
  destruct Hfail as [->|(stats & -> & -> & Hrd)]; [done|].
  unfold bind at 1. unfold listDirectory, bind at 1.
  by rewrite readdirSync_run, Hrd.
Qed.

Lemma file_system_errors_are_500_witness :
  (handler Demo.host
     {| fs_exists := fs_exists Demo.fs; fs_stat := λ _, None;
        fs_readdir := fs_readdir Demo.fs; fs_readFile := fs_readFile Demo.fs |}
     "/srv/docs" "/a.txt" Demo.fresh).1
  = Ok (Send 500 "Internal server error").
Proof.
  set (fs := {| fs_exists := fs_exists Demo.fs; fs_stat := λ _, None;
                fs_readdir := fs_readdir Demo.fs;
                fs_readFile := fs_readFile Demo.fs |}).
  destruct (shouldIgnoreFile Demo.host fs (Path.join "/srv/docs" "/a.txt")
              "/srv/docs" Demo.fresh) as [r s1] eqn:E.
  assert (r = Ok false) as -> by (by apply (f_equal fst) in E).
  apply (file_system_errors_are_500 Demo.host fs "/srv/docs" "/a.txt" "/a.txt"
           Demo.fresh s1); try done.
  - by left.
  - by left.
Defined.

(** X14.  Every entry of a listing is well formed: a directory has no
    size and the type [directory]; a file has a size and the type its
    lower-cased extension maps to. *)
Theorem listing_entries_well_formed (host : Host) (fs : FileSystem)
    (ROOT_DIR fullPath : string) (s s' : State) (files : list FileInfo) :
  listDirectory host fs ROOT_DIR fullPath s = (Ok files, s') →
  Forall wellFormedEntry files.
Proof.
  intros Hlist. apply Forall_forall. intros e He.
  destruct (listDirectory_infos host fs _ _ _ _ _ Hlist e He)
    as (p & stats & _ & ->).
  apply fileInfoOf_wellFormed.
Qed.

Lemma listing_entries_well_formed_witness :
  ∃ files s',
    listDirectory Demo.host Demo.fs "/srv/docs" "/srv/docs" Demo.fresh
    = (Ok files, s')
    ∧ map (λ e, (name e, size e, type e)) files
      = [("A", None, "directory"); ("a.txt", Some 2%N, "text");
         ("b.txt", Some 3%N, "text"); ("logo.png", Some 3%N, "file");
         ("run", Some 21%N, "file")]
    ∧ Forall wellFormedEntry files.
Proof.
  destruct (listDirectory Demo.host Demo.fs "/srv/docs" "/srv/docs" Demo.fresh)
    as [r s'] eqn:E.
  assert (map (λ e, (name e, size e, type e))
            <$> match r with Ok l => Some l | Throw _ => None end
          = Some [("A", None, "directory"); ("a.txt", Some 2%N, "text");
                  ("b.txt", Some 3%N, "text"); ("logo.png", Some 3%N, "file");
                  ("run", Some 21%N, "file")]) as Hr
    by (by apply (f_equal fst) in E; simpl in E; subst r).
  destruct r as [files|x]; [|discriminate Hr].
  exists files, s'. split; [done|]. split; [by injection Hr|].
  exact (listing_entries_well_formed Demo.host Demo.fs _ _ _ _ _ E).
Defined.

(** X15.  For a path with an extension the content plays no part: the
    language is what the table gives for the lower-cased extension, and
    none when the extension is not in the table. *)
Theorem extension_decides_language (filePath content : string) :
  Path.extname filePath ≠ "" →
  detectLanguage filePath content
  = lookup_table (JS.toLowerCase (Path.extname filePath)) languages.
Proof.
  intros Hext. unfold detectLanguage.
  destruct (lookup_table _ languages); [done|].
  by rewrite toLowerCase_truthy, (proj2 (truthy_true _) Hext).
Qed.

Lemma extension_decides_language_witness :
  detectLanguage "/srv/docs/notes.TXT" "#!/usr/bin/env node" = None
  ∧ detectLanguage "/srv/docs/Main.JS" "def f(): import os" = Some "javascript".
Proof.
  split.
  - rewrite (extension_decides_language "/srv/docs/notes.TXT"); done.
  - rewrite (extension_decides_language "/srv/docs/Main.JS"); done.
Defined.

(** ** Start-up *)

Section StartupFacts.

Lemma digit_range a d :
  JSNum.digit a = Some d → (48 <= N_of_ascii a <= 57)%N.
Proof.
  unfold JSNum.digit.
  destruct ((48 <=? N_of_ascii a)%N) eqn:E1; [|done].
  destruct ((N_of_ascii a <=? 57)%N) eqn:E2; [|done].
  intros _. apply N.leb_le in E1. apply N.leb_le in E2. lia.
Qed.

Lemma N_eqb_false_of n k : (n ≠ k)%N → (n =? k)%N = false.
Proof. apply N.eqb_neq. Qed.

(** A digit is neither white space nor a sign. *)
Lemma trimStart_digit a s :
  is_Some (JSNum.digit a) →
  JSNum.trimStart (String a s) = String a s.
Proof.
  intros [d Hd%digit_range]. cbn [JSNum.trimStart].
  assert (Ignore.isSpaceByte a = false) as ->.
  { unfold Ignore.isSpaceByte. apply orb_false_iff. split.
    - apply andb_false_iff. right. apply N.leb_gt. lia.
    - apply N.eqb_neq. lia. }
  destruct s as [|b s]; [done|].
  rewrite (N_eqb_false_of (N_of_ascii a) 194) by lia. cbn [andb].
  destruct s as [|c s]; [done|].
  unfold JSNum.space3.
  rewrite (N_eqb_false_of (N_of_ascii a) 225),
    (N_eqb_false_of (N_of_ascii a) 226),
    (N_eqb_false_of (N_of_ascii a) 227),
    (N_eqb_false_of (N_of_ascii a) 239) by lia.
  done.
Qed.

Lemma digit_not_sign a c :
  is_Some (JSNum.digit a) → (N_of_ascii c < 48)%N → Ascii.eqb a c = false.
Proof.
  intros [d Hd%digit_range] Hc. apply Ascii.eqb_neq. intros ->. lia.
Qed.

Lemma parseInt_digits a s :
  is_Some (JSNum.digit a) →
  JSNum.parseInt (String a s) = Some (JSNum.digits 0 (String a s)).
Proof.
  intros Ha. unfold JSNum.parseInt. rewrite trimStart_digit by done.
  rewrite (digit_not_sign a "-"), (digit_not_sign a "+") by (done || by vm_compute).
  unfold JSNum.startsWithDigit. rewrite bool_decide_eq_true_2 by done.
  f_equal. lia.
Qed.

Lemma digits_suffix ds rest acc :
  allDigits ds → JSNum.startsWithDigit rest = false →
  JSNum.digits acc (ds +:+ rest) = JSNum.digits acc ds.
Proof.
  unfold allDigits. revert acc.
  induction ds as [|a ds IH]; intros acc Hds Hrest.
  - change ("" +:+ rest) with rest. destruct rest as [|b rest]; [done|].
    simpl in *. apply bool_decide_eq_false in Hrest.
    destruct (JSNum.digit b); [|done]. by destruct Hrest.
  - simpl in Hds. inversion_clear Hds as [|? ? [d Hd] Hds'].
    change (String a ds +:+ rest) with (String a (ds +:+ rest)).
    cbn [JSNum.digits]. rewrite Hd. by apply IH.
Qed.

Lemma digits_range s acc : 0 <= acc → 0 <= JSNum.digits acc s.
Proof.
  revert acc; induction s as [|a s IH]; intros acc Hacc; simpl; [done|].
  destruct (JSNum.digit a) as [d|] eqn:Hd; [|done].
  apply IH. unfold JSNum.digit in Hd.
  destruct (_ && _)%N eqn:E; [|done]. injection Hd as <-.
  apply andb_true_iff in E as [E1%N.leb_le _]. lia.
Qed.

End StartupFacts.

(** X16.  The server only ever starts with a sound configuration:
    when the working directory is absolute, a start-up that goes on to serve
    has an absolute root directory that exists and a port between 1 and
    65535, which is 4040 when no port was given and the parsed argument
    otherwise. *)
Theorem startup_config_is_sound (host : Host) (fs : FileSystem)
    (dirArg portArg : option string) (config : ServerConfig) :
  Path.isAbsolute (cwd host) = true →
  startup host fs dirArg portArg = Serve config →
  Path.isAbsolute (rootDirectory config) = true
  ∧ fs_exists fs (rootDirectory config) = true
  ∧ 1 <= port config <= 65535
  ∧ match argument portArg with
    | None => port config = 4040
    | Some p => JSNum.parseInt p = Some (port config)
    end.
Proof.
  intros Hcwd. unfold startup.
  set (ROOT_DIR := match argument dirArg with
                   | Some d => Path.resolve (cwd host) d
                   | None => cwd host
                   end).
  assert (Path.isAbsolute ROOT_DIR = true) as Habs.
  { subst ROOT_DIR. destruct (argument dirArg) as [d|]; [|done].
    destruct (resolve_shape host d) as (l & _ & ->); [|done].
    by rewrite Hcwd, orb_true_r. }
  destruct (argument portArg) as [p|].
  - destruct (JSNum.parseInt p) as [n|]; [|done].
    destruct ((n <? 1) || (n >? 65535)) eqn:Hr; [done|].
    destruct (fs_exists fs ROOT_DIR) eqn:Hex; [|done].
    intros [= <-]. simpl. apply orb_false_iff in Hr as [H1 H2].
    apply Z.ltb_ge in H1. rewrite Z.gtb_ltb in H2. apply Z.ltb_ge in H2.
    split_and!; done || lia.
  - destruct (fs_exists fs ROOT_DIR) eqn:Hex; [|done].
    intros [= <-]. simpl. split_and!; done || lia.
Qed.

Lemma startup_config_is_sound_witness :
  startup Demo.host Demo.fs (Some "/srv/docs/A/..//") (Some " 8080")
  = Serve {| rootDirectory := "/srv/docs"; port := 8080 |}
  ∧ 1 <= 8080 <= 65535.
Proof.
  split; [reflexivity|].
  exact (proj1 (proj2 (proj2
    (startup_config_is_sound Demo.host Demo.fs (Some "/srv/docs/A/..//")
       (Some " 8080") _ eq_refl eq_refl)))).
Defined.

(** X17.  Text after the digits of the port argument is ignored:
    an argument made of digits followed by anything that does not begin
    with a digit parses to the same number, and start-up goes the same way,
    as with the digits alone. *)
Theorem port_suffix_is_ignored (host : Host) (fs : FileSystem)
    (dirArg : option string) (ds rest : string) :
  ds ≠ "" → allDigits ds → JSNum.startsWithDigit rest = false →
  JSNum.parseInt (ds +:+ rest) = JSNum.parseInt ds
  ∧ startup host fs dirArg (Some (ds +:+ rest))
    = startup host fs dirArg (Some ds).
Proof.
  intros Hne Hds Hrest.
  destruct ds as [|a ds]; [done|].
  assert (is_Some (JSNum.digit a)) as Ha.
  { unfold allDigits in Hds. simpl in Hds. by inversion Hds. }
  assert (JSNum.parseInt (String a ds +:+ rest) = JSNum.parseInt (String a ds))
    as Hparse.
  { change (String a ds +:+ rest) with (String a (ds +:+ rest)).
    rewrite !parseInt_digits by done.
    change (String a (ds +:+ rest)) with (String a ds +:+ rest).
    by rewrite digits_suffix. }
  split; [done|].
  unfold startup.
  change (argument (Some (String a ds +:+ rest)))
    with (Some (String a ds +:+ rest)).
  change (argument (Some (String a ds))) with (Some (String a ds)).
  cbv beta iota. by rewrite Hparse.
Qed.

Lemma port_suffix_is_ignored_witness :
  startup Demo.host Demo.fs (Some "/srv/docs") (Some "8080abc")
  = Serve {| rootDirectory := "/srv/docs"; port := 8080 |}.
Proof.
  change "8080abc" with ("8080" +:+ "abc").
  rewrite (proj2 (port_suffix_is_ignored Demo.host Demo.fs (Some "/srv/docs")
                    "8080" "abc" ltac:(discriminate)
                    ltac:(vm_compute; repeat constructor; by eexists)
                    eq_refl)).
  reflexivity.
Defined.

(** X18.  A port argument that is present and does not parse to a
    number between 1 and 65535 stops the process with status 1 and the port
    message, whether or not the directory exists; with an acceptable port
    or none, a directory that does not exist stops it with status 1 and the
    directory message. *)
Theorem startup_refusals (host : Host) (fs : FileSystem)
    (dirArg portArg : option string) (status : Z) (message : string) :
  startup host fs dirArg portArg = Exit status message →
  status = 1
  ∧ (message = portError
     ∧ (∃ p, argument portArg = Some p
             ∧ ∀ n, JSNum.parseInt p = Some n → n < 1 ∨ 65535 < n)
     ∨ (∃ dir, message = directoryError dir ∧ fs_exists fs dir = false
               ∧ ∀ p, argument portArg = Some p →
                      ∃ n, JSNum.parseInt p = Some n ∧ 1 <= n <= 65535)).
Proof.
  unfold startup.
  set (ROOT_DIR := match argument dirArg with
                   | Some d => Path.resolve (cwd host) d
                   | None => cwd host
                   end).
  destruct (argument portArg) as [p|].
  - destruct (JSNum.parseInt p) as [n|] eqn:Hp.
    + destruct ((n <? 1) || (n >? 65535)) eqn:Hr.
      * intros [= <- <-]. split; [done|]. left. split; [done|].
        exists p. split; [done|]. intros n' Hn'.
        assert (n' = n) as -> by congruence.
        apply orb_true_iff in Hr as [H1%Z.ltb_lt|H2]; [by left|right].
        rewrite Z.gtb_ltb in H2. by apply Z.ltb_lt in H2.
      * destruct (fs_exists fs ROOT_DIR) eqn:Hex; [done|].
        intros [= <- <-]. split; [done|]. right.
        exists ROOT_DIR. split_and!; [done..|].
        intros p' Hp'. assert (p' = p) as -> by congruence.
        exists n. split; [done|].
        apply orb_false_iff in Hr as [H1 H2].
        apply Z.ltb_ge in H1. rewrite Z.gtb_ltb in H2. apply Z.ltb_ge in H2. lia.
    + intros [= <- <-]. split; [done|]. left. split; [done|].
      exists p. split; [done|]. intros n Hn. congruence.
  - destruct (fs_exists fs ROOT_DIR) eqn:Hex; [done|].
    intros [= <- <-]. split; [done|]. right.
    exists ROOT_DIR. split_and!; [done..|]. done.
Qed.

Lemma startup_refusals_witness :
  startup Demo.host Demo.fs (Some "/nowhere") (Some "99999") = Exit 1 portError
  ∧ startup Demo.host Demo.fs (Some "/nowhere") (Some "8080")
    = Exit 1 (directoryError "/nowhere").
Proof.
  split.
  - destruct (startup Demo.host Demo.fs (Some "/nowhere") (Some "99999"))
      as [c|st msg] eqn:E; [by vm_compute in E|].
    destruct (startup_refusals _ _ _ _ _ _ E) as [-> _].
    vm_compute in E. injection E as <-. reflexivity.
  - reflexivity.
Defined.

(** ** The links of a listing *)

Section LinkFacts.

Lemma tokens_plain s :
  JS.hasChar "%"%char s = false →
  URI.tokens s = Some (map URI.Raw (list_ascii_of_string s)).
Proof.
  induction s as [|a s IH]; [done|]. cbn [JS.hasChar URI.tokens].
  intros [Ha Hs]%orb_false_iff. rewrite Ha, (IH Hs). done.
Qed.

Lemma utf8_raw l : URI.utf8 (map URI.Raw l) = Some l.
Proof. induction l as [|a l IH]; [done|]. simpl. by rewrite IH. Qed.

(** Text without escapes decodes to itself. *)
Lemma decode_plain_text s :
  JS.hasChar "%"%char s = false → URI.decodeURIComponent s = Some s.
Proof.
  intros Hs. unfold URI.decodeURIComponent. rewrite tokens_plain by done.
  simpl. rewrite utf8_raw. simpl. by rewrite string_of_list_ascii_of_string.
Qed.

(** Joining in two steps or in one resolves to the same place. *)
Lemma normSegments_join_join root a b :
  Path.isAbsolute root = true →
  Path.normSegments false (Path.join root (a +:+ "/" +:+ b))
  = Path.normSegments false (Path.join (Path.join root a) b).
Proof.
  intros Habs. rewrite (normSegments_join (Path.join root a))
    by (by apply join_isAbsolute).
  rewrite !normSegments_join by done. rewrite rev_involutive.
  change (a +:+ "/" +:+ b) with (a +:+ String Path.sep b).
  by rewrite splitOn_app, fold_left_app.
Qed.

End LinkFacts.

(** X19.  The link of a row leads to its entry: in the listing of a
    directory other than the root, the [href] of an entry, requested as it
    stands, decodes to itself and joins with the root to the same place as
    the entry's name joins with the listed directory, provided neither the
    requested path nor the name holds a percent sign. *)
Theorem row_link_reaches_entry (host : Host) (ROOT_DIR requestedPath fileName : string) :
  Path.isAbsolute ROOT_DIR = true →
  requestedPath ≠ "" → requestedPath ≠ "/" →
  JS.hasChar "%"%char requestedPath = false →
  JS.hasChar "%"%char fileName = false →
  let href := rowHref (currentPathOf requestedPath) fileName in
  URI.decodeURIComponent href = Some href
  ∧ resolvedSegments host (Path.join ROOT_DIR href)
    = resolvedSegments host (Path.join (Path.join ROOT_DIR requestedPath) fileName).
Proof.
  intros Habs Hne Hroot Hp Hn href.
  assert (href = requestedPath +:+ "/" +:+ fileName) as ->.
  { unfold href, currentPathOf, rowHref.
    rewrite bool_decide_eq_false_2 by done.
    by rewrite (proj2 (truthy_true _) Hne). }
  split.
  - apply decode_plain_text. by rewrite !hasChar_app, Hp, Hn.
  - rewrite !resolvedSegments_abs by auto using join_isAbsolute.
    by apply normSegments_join_join.
Qed.

Lemma row_link_reaches_entry_witness :
  rowHref (currentPathOf "/A/../A/") "b.txt" = "/A/../A//b.txt"
  ∧ resolvedSegments Demo.host
      (Path.join "/srv/docs" (rowHref (currentPathOf "/A/../A/") "b.txt"))
    = ["srv"; "docs"; "A"; "b.txt"]
  ∧ resolvedSegments Demo.host
      (Path.join (Path.join "/srv/docs" "/A/../A/") "b.txt")
    = ["srv"; "docs"; "A"; "b.txt"].
Proof.
  pose proof (row_link_reaches_entry Demo.host "/srv/docs" "/A/../A/" "b.txt"
                eq_refl ltac:(discriminate) ltac:(discriminate) eq_refl eq_refl)
    as [_ E].
  split; [reflexivity|]. split; [|reflexivity].
  rewrite E. reflexivity.
Defined.

(** ** A directory hidden by a directory-only pattern *)

(** C3. A directory that the ignore rules hide is not answered like a
    missing path.  The root [/srv/docs] holds the directory [build] and an
    ignore file with the single line [build/].  The loaded rules are the
    implicit [.git] and [build/], and they hide the directory: they answer
    true on [build/], the form a directory has for them, and on everything
    below it.  [shouldIgnoreFile] asks them about [build], the result of
    [path.relative], which never ends in a separator, and is told false.
    So [GET /build] and [GET /build/] are answered 200 with a listing,
    [GET /] lists [build], while [GET /nothing] and the hidden
    [GET /build/out.js] are answered 404 [File not found]. *)
Theorem hidden_directory_is_served :
  let fs := Demo.fsOf Demo.buildTree in
  ∃ rules,
    (loadGitignoreRules Demo.directoryHost fs "/srv/docs" Demo.fresh).1 = Ok rules
    ∧ map Ignore.origin rules = [".git"; "build/"]
    ∧ Ignore.ignores rules "build/" = Some true
    ∧ Ignore.ignores rules "build/out.js" = Some true
    ∧ Ignore.ignores rules "build" = Some false
    ∧ fs_exists fs "/srv/docs/build" = true
    ∧ option_map st_isDirectory (fs_stat fs "/srv/docs/build") = Some true
    ∧ Path.relative (cwd Demo.directoryHost) "/srv/docs" "/srv/docs/build/"
      = "build"
    ∧ (shouldIgnoreFile Demo.directoryHost fs "/srv/docs/build" "/srv/docs"
         Demo.fresh).1 = Ok false
    ∧ (shouldIgnoreFile Demo.directoryHost fs "/srv/docs/build/" "/srv/docs"
         Demo.fresh).1 = Ok false
    ∧ (handler Demo.directoryHost fs "/srv/docs" "/build" Demo.fresh).1
      = Ok (Send 200 "")
    ∧ (handler Demo.directoryHost fs "/srv/docs" "/build/" Demo.fresh).1
      = Ok (Send 200 "")
    ∧ (handler Demo.directoryHost fs "/srv/docs" "/" Demo.fresh).1
      = Ok (Send 200 "build,a.txt")
    ∧ (handler Demo.directoryHost fs "/srv/docs" "/build/out.js" Demo.fresh).1
      = Ok notFound
    ∧ (handler Demo.directoryHost fs "/srv/docs" "/nothing" Demo.fresh).1
      = Ok notFound
    ∧ (handler Demo.directoryHost fs "/srv/docs" "/build" Demo.fresh).1
      ≠ (handler Demo.directoryHost fs "/srv/docs" "/nothing" Demo.fresh).1.
Proof.
  intros fs.
  exists [gitRule Demo.directoryHost;
          Ignore.createRule Demo.directoryRegex "build/"].
  split_and!; try (vm_compute; reflexivity).
  vm_compute. discriminate.
Qed.
